(** * Arabic RAG system: ingestion, chunking and indexing pipeline

    A shallow embedding of the Python sources

      - [document_processor.py]  ([DocumentProcessor]),
      - [ocr_processor.py]       ([OCRProcessor]),
      - [vector_store.py]        ([VectorStore]),
      - [app.py]                 ([save_uploaded_file]),

    followed by the properties of the specification that were checked
    against them.

    Conventions.
      - A Python [str] is a list of Unicode code points ([text]); [len],
        slicing, [rfind] and [strip] count code points, exactly as Python does.
      - Python integers are [Z]; slice bounds may be negative and are
        resolved as Python resolves them.
      - A call that may raise is a value of [Exc A]: [Raise e] or [Ret a];
        [try ... except Exception] is [catch].
      - The [while] loop of [chunk_text] is run with fuel: [None] means the
        fuel ran out before the loop condition became false. *)

From Stdlib Require Import ZArith NArith Lia String Ascii List.
From stdpp Require Import base option list gmap strings fin_maps pretty sorting.

Local Open Scope Z_scope.

(** ** Text as sequences of code points *)

Module Text.

Definition char : Type := N.
Definition text : Type := list char.

(** A string literal of the source whose characters are all ASCII. *)
Definition lit (s : string) : text :=
  map (fun a : ascii => N_of_ascii a) (list_ascii_of_string s).

(** [len(l)] *)
Definition len {A : Type} (l : list A) : Z := Z.of_nat (length l).

(** [str.isspace] on one code point: the table of CPython's
    [_PyUnicode_IsWhitespace]. *)
Definition isspace (c : char) : bool :=
  ((9 <=? c) && (c <=? 13) || (28 <=? c) && (c <=? 32)
   || (c =? 133) || (c =? 160) || (c =? 5760)
   || (8192 <=? c) && (c <=? 8202)
   || (c =? 8232) || (c =? 8233) || (c =? 8239) || (c =? 8287)
   || (c =? 12288))%N.

Fixpoint lstrip (s : text) : text :=
  match s with
  | [] => []
  | c :: s' => if isspace c then lstrip s' else s
  end.

Definition rstrip (s : text) : text := rev (lstrip (rev s)).

(** [s.strip()] *)
Definition strip (s : text) : text := rstrip (lstrip s).

(** Resolution of one slice bound against a sequence of length [n]:
    a negative bound counts from the end, and the result is clipped
    to [0 .. n]. *)
Definition clamp_index (n i : Z) : Z :=
  if i <? 0 then Z.max 0 (i + n) else Z.min i n.

(** [l[i:j]] *)
Definition slice {A : Type} (l : list A) (i j : Z) : list A :=
  let n := len l in
  let a := clamp_index n i in
  let b := clamp_index n j in
  firstn (Z.to_nat (b - a)) (skipn (Z.to_nat a) l).

Fixpoint startswith (sub s : text) : bool :=
  match sub, s with
  | [], _ => true
  | _ :: _, [] => false
  | c :: sub', d :: s' => (c =? d)%N && startswith sub' s'
  end.

(** Scan left to right from index [i], remembering in [last] the highest
    index seen so far at which [sub] occurs. *)
Fixpoint rfind_from (s sub : text) (i last : Z) : Z :=
  match s with
  | [] => if startswith sub [] then i else last
  | _ :: s' => rfind_from s' sub (i + 1) (if startswith sub s then i else last)
  end.

(** [s.rfind(sub)]: the highest index where [sub] occurs in [s], or [-1]. *)
Definition rfind (s sub : text) : Z := rfind_from s sub 0 (-1).

(** [sub in s] *)
Fixpoint occurs (sub s : text) : bool :=
  startswith sub s ||
  match s with
  | [] => false
  | _ :: s' => occurs sub s'
  end.

Definition newline : char := 10%N.

(** [sep.join(parts)] *)
Fixpoint join (sep : text) (parts : list text) : text :=
  match parts with
  | [] => []
  | [p] => p
  | p :: ps => p ++ sep ++ join sep ps
  end.

End Text.

Import Text.

(** ** Exceptions *)

Module Py.

(** A raised [Exception]; [str(e)] is its message. *)
Inductive exn : Type := Exception (msg : text).

Definition str_exn (e : exn) : text :=
  match e with Exception msg => msg end.

(** The outcome of a call: it raised, or it returned a value. *)
Inductive Exc (A : Type) : Type :=
  | Raise (e : exn)
  | Ret (a : A).
Arguments Raise {A} e.
Arguments Ret {A} a.

Definition bind {A B : Type} (f : A -> Exc B) (c : Exc A) : Exc B :=
  match c with
  | Raise e => Raise e
  | Ret a => f a
  end.

#[global] Instance Exc_ret : MRet Exc := @Ret.
#[global] Instance Exc_bind : MBind Exc := @bind.

(** [try: c except Exception as e: h e] *)
Definition catch {A : Type} (c : Exc A) (h : exn -> Exc A) : Exc A :=
  match c with
  | Raise e => h e
  | Ret a => Ret a
  end.

(** Run the binds, returns and handlers whose outcome is known. *)
Ltac exc_simpl := cbn [mbind mret Exc_bind Exc_ret bind catch].

(** Raw bytes of a file. *)
Definition bytes : Type := list Byte.byte.

End Py.

Import Py.

(** ** [DocumentProcessor.chunk_text] *)

Module Chunker.

(** The literal list [['. ', '。', '！', '؟', '\n\n']]. *)
Definition boundary_markers : list text :=
  [ [46; 32]; [12290]; [65281]; [1567]; [10; 10] ]%N.

(** The [for punct in ...] loop with its [break]: the new [end] for the
    window [text[start:end]], or [end] itself when no marker occurs. *)
Fixpoint break_at_boundary (t : text) (start end_ : Z) (puncts : list text) : Z :=
  match puncts with
  | [] => end_
  | punct :: rest =>
      let last_punct := rfind (slice t start end_) punct in
      if negb (last_punct =? -1) then start + last_punct + len punct
      else break_at_boundary t start end_ rest
  end.

(** Lines 262-271: the end of the window that starts at [start]. *)
Definition window_end (t : text) (chunk_size start : Z) : Z :=
  let end_ := start + chunk_size in
  if end_ <? len t then break_at_boundary t start end_ boundary_markers
  else end_.

(** [chunks.append(chunk)] guarded by [if chunk:]. *)
Definition append_chunk (chunks : list text) (chunk : text) : list text :=
  match chunk with
  | [] => chunks
  | _ :: _ => chunks ++ [chunk]
  end.

(** The [while start < text_length] loop. *)
Fixpoint chunk_loop (fuel : nat) (t : text) (chunk_size overlap : Z)
    (start : Z) (chunks : list text) : option (list text) :=
  match fuel with
  | O => None
  | S fuel' =>
      if start <? len t then
        let end_ := window_end t chunk_size start in
        let chunk := strip (slice t start end_) in
        chunk_loop fuel' t chunk_size overlap (end_ - overlap)
          (append_chunk chunks chunk)
      else Some chunks
  end.

Definition chunk_text (fuel : nat) (t : text) (chunk_size overlap : Z)
    : option (list text) :=
  match t with
  | [] => Some []
  | _ :: _ => chunk_loop fuel t chunk_size overlap 0 []
  end.

(** The same loop, recording the pair [(start, end)] of every iteration
    instead of the chunk. *)
Fixpoint window_loop (fuel : nat) (t : text) (chunk_size overlap : Z)
    (start : Z) : option (list (Z * Z)) :=
  match fuel with
  | O => None
  | S fuel' =>
      if start <? len t then
        let end_ := window_end t chunk_size start in
        option_map (cons (start, end_))
          (window_loop fuel' t chunk_size overlap (end_ - overlap))
      else Some []
  end.

Definition chunk_windows (fuel : nat) (t : text) (chunk_size overlap : Z)
    : option (list (Z * Z)) :=
  match t with
  | [] => Some []
  | _ :: _ => window_loop fuel t chunk_size overlap 0
  end.

(** The chunks that a list of windows contributes, in order. *)
Definition chunks_of (t : text) (ws : list (Z * Z)) : list text :=
  fold_left (fun acc w => append_chunk acc (strip (slice t (fst w) (snd w))))
    ws [].

(** The offsets of [t] that the slice [t[s:e]] reads. *)
Definition covers (t : text) (w : Z * Z) (k : Z) : bool :=
  (clamp_index (len t) (fst w) <=? k) && (k <? clamp_index (len t) (snd w)).

Definition covered (t : text) (ws : list (Z * Z)) (k : Z) : bool :=
  existsb (fun w => covers t w k) ws.

(** None of the boundary markers occurs in [t]. *)
Definition no_boundary (t : text) : bool :=
  forallb (fun punct => rfind t punct =? -1) boundary_markers.

(** [chunk_text(text)] returns [chunks]. *)
Definition returns (t : text) (chunk_size overlap : Z) (chunks : list text) : Prop :=
  exists fuel, chunk_text fuel t chunk_size overlap = Some chunks.

(** [chunk_text(text)] never leaves its loop. *)
Definition diverges (t : text) (chunk_size overlap : Z) : Prop :=
  forall fuel, chunk_text fuel t chunk_size overlap = None.

End Chunker.

Import Chunker.


(** ** The result dictionaries of the extractors *)

Module Extract.

(** One record of the ['pages'] list; the extractors put different
    dictionaries there. *)
Inductive page : Type :=
  | PdfPage (page_number : Z) (ptext : text) (char_count : Z)
  | Paragraph (ptext : text) (style : text)
  | SheetPage (sheet_name : text) (ptext : text) (data : list (list text))
  | ImagePage (size : Z * Z) (format mode : text) (ocr_text : option text).

(** The ['metadata'] dictionary. *)
Inductive metadata : Type :=
  | NoMeta
  | PdfMeta (num_pages : Z) (method : text) (ocr_pages : option Z)
  | DocxMeta (num_paragraphs num_tables : Z) (tables : list (list (list text)))
  | XlsxMeta (num_sheets : Z) (sheet_names : list text)
  | ImageMeta (width height : Z) (format : text) (method : option text).

(** The dictionary returned by [process_file] and by the extractors;
    the keys ['status'] and ['error'] are not always present. *)
Record result : Type := mk_result {
  r_text : text;
  r_pages : list page;
  r_metadata : metadata;
  r_status : option text;
  r_error : option text
}.

(** [result['status'] = s] *)
Definition set_status (s : text) (r : result) : result :=
  {| r_text := r_text r; r_pages := r_pages r; r_metadata := r_metadata r;
     r_status := Some s; r_error := r_error r |}.

(** The dictionary returned by the methods of [OCRProcessor]. *)
Record ocr_result : Type := mk_ocr_result {
  o_text : text;
  o_pages : list page;
  o_status : text;
  o_error : option text;
  o_method : option text;
  o_num_pages : option Z
}.

Record docx_document : Type := {
  paragraphs : list (text * text);        (* [para.text], [para.style.name] *)
  tables : list (list (list text))        (* rows of [cell.text] *)
}.

(** A workbook: its sheets in order, each with its rows of cell values;
    [None] is a cell that is [None], [Some s] a cell with [str(cell) = s]. *)
Definition workbook : Type := list (text * list (list (option text))).

Record image_info : Type := {
  img_size : Z * Z;
  img_format : text;
  img_mode : text
}.

(** The libraries and services the extractors call. *)
Class Libraries : Type := {
  (** [PyPDF2.PdfReader(open(path, 'rb')).pages]; a page holds the outcome
      of its [extract_text()]. *)
  pdf_reader : text -> Exc (list (Exc text));
  (** [docx.Document(path)] *)
  docx_open : text -> Exc docx_document;
  (** [openpyxl.load_workbook(path, data_only=True)] *)
  xlsx_open : text -> Exc workbook;
  (** [PIL.Image.open(path)] *)
  image_open : text -> Exc image_info;
  (** [open(path, 'rb').read()] *)
  read_file : text -> Exc bytes;
  (** [len(fitz.open(path))] *)
  fitz_open : text -> Exc Z;
  (** Rendering page [page_num] at double resolution, as PNG bytes
      stored in the temporary file. *)
  fitz_page_png : text -> Z -> Exc bytes;
  (** The vision request for a model, an expected language and an image:
      [response.choices[0].message.content]. *)
  vision_create : text -> text -> bytes -> Exc text
}.

(** *** [ocr_processor.py] *)

Record OCRProcessor : Type := { model : text }.

Definition default_processor : OCRProcessor := {| model := lit "gpt-4o" |}.

Section OCR.
Context `{Libraries}.

(** [OCRProcessor.process_image], on the outcome of reading the image. *)
Definition transcribe (ocr : OCRProcessor) (image : Exc bytes) (language : text)
    : Exc ocr_result :=
  catch
    (base64_image ← image;
     extracted_text ← vision_create (model ocr) language base64_image;
     mret {| o_text := extracted_text; o_pages := []; o_status := lit "success";
             o_error := None; o_method := Some (lit "gpt4_vision");
             o_num_pages := None |})
    (fun e =>
       mret {| o_text := []; o_pages := []; o_status := lit "error";
               o_error := Some (str_exn e); o_method := Some (lit "gpt4_vision");
               o_num_pages := None |}).

Definition ocr_process_image (ocr : OCRProcessor) (image_path : text)
    (language : text) : Exc ocr_result :=
  transcribe ocr (read_file image_path) language.

Definition default_language : text := lit "Arabic and English".

Definition ocr_error (msg : text) : ocr_result :=
  {| o_text := []; o_pages := []; o_status := lit "error"; o_error := Some msg;
     o_method := None; o_num_pages := None |}.

(** [OCRProcessor.process_pdf_page_as_image]; [process_image(temp_path)]
    reads back the bytes that were just written to the temporary file. *)
Definition process_pdf_page_as_image (ocr : OCRProcessor) (pdf_path : text)
    (page_num : Z) : Exc ocr_result :=
  catch
    (doc_len ← fitz_open pdf_path;
     if doc_len <=? page_num then
       mret (ocr_error (lit "Page " ++ lit (pretty page_num) ++ lit " does not exist"))
     else
       img_data ← fitz_page_png pdf_path page_num;
       transcribe ocr (Ret img_data) default_language)
    (fun e => mret (ocr_error (str_exn e))).

(** The [for page_num in range(num_pages)] loop of [process_scanned_pdf],
    from [page_num] on, for [count] pages. *)
Fixpoint scan_pages (ocr : OCRProcessor) (pdf_path : text) (count : nat)
    (page_num : Z) (all_text : list text) (pages_data : list page)
    : Exc (list text * list page) :=
  match count with
  | O => mret (all_text, pages_data)
  | S count' =>
      result ← process_pdf_page_as_image ocr pdf_path page_num;
      if decide (o_status result = lit "success") then
        scan_pages ocr pdf_path count' (page_num + 1)
          (all_text ++ [lit "[Page " ++ lit (pretty (page_num + 1)) ++ lit "]"
                        ++ [newline] ++ o_text result])
          (pages_data ++ [PdfPage (page_num + 1) (o_text result)
                            (len (o_text result))])
      else
        scan_pages ocr pdf_path count' (page_num + 1) all_text pages_data
  end.

(** [OCRProcessor.process_scanned_pdf] *)
Definition process_scanned_pdf (ocr : OCRProcessor) (pdf_path : text)
    (max_pages : Z) : Exc ocr_result :=
  catch
    (doc_len ← fitz_open pdf_path;
     let num_pages := Z.min doc_len max_pages in
     '(all_text, pages_data) ← scan_pages ocr pdf_path (Z.to_nat num_pages) 0 [] [];
     mret {| o_text := join [newline; newline] all_text;
             o_pages := pages_data; o_status := lit "success"; o_error := None;
             o_method := Some (lit "gpt4_vision_ocr");
             o_num_pages := Some num_pages |})
    (fun e =>
       mret {| o_text := []; o_pages := []; o_status := lit "error";
               o_error := Some (str_exn e); o_method := None;
               o_num_pages := None |}).

(** [range(page_num, page_num + count)] *)
Fixpoint page_range (count : nat) (page_num : Z) : list Z :=
  match count with
  | O => []
  | S count' => page_num :: page_range count' (page_num + 1)
  end.

(** The text of page [page_num] when its transcription succeeds. *)
Definition transcribed (ocr : OCRProcessor) (pdf_path : text) (page_num : Z)
    : option text :=
  match process_pdf_page_as_image ocr pdf_path page_num with
  | Ret r => if decide (o_status r = lit "success") then Some (o_text r) else None
  | Raise _ => None
  end.

(** What a transcribed page adds to [all_text] and to [pages_data]. *)
Definition page_marker (page_num : Z) (t : text) : text :=
  lit "[Page " ++ lit (pretty (page_num + 1)) ++ lit "]" ++ [newline] ++ t.

Definition page_record (page_num : Z) (t : text) : page :=
  PdfPage (page_num + 1) t (len t).

End OCR.

(** *** [document_processor.py] *)

Record DocumentProcessor : Type := { ocr_processor : option OCRProcessor }.

Section Processor.
Context `{Libraries}.

(** The locals [pages], [full_text] and [total_text_length] of [process_pdf]. *)
Record pdf_locals : Type := {
  pages : list page;
  full_text : list text;
  total_text_length : Z
}.

(** The [for page_num in range(num_pages)] loop of [process_pdf]: the
    locals when the loop is left, and the exception that ended it, if any. *)
Fixpoint read_pages (ps : list (Exc text)) (page_num : Z) (st : pdf_locals)
    : pdf_locals * option exn :=
  match ps with
  | [] => (st, None)
  | Raise e :: _ => (st, Some e)
  | Ret t :: rest =>
      read_pages rest (page_num + 1)
        {| pages := pages st ++ [PdfPage (page_num + 1) t (len t)];
           full_text := full_text st ++ [t];
           total_text_length := total_text_length st + len (strip t) |}
  end.

(** The locals after the texts [ts] have been read as the pages that
    follow page [page_num]. *)
Fixpoint after_pages (ts : list text) (page_num : Z) (st : pdf_locals)
    : pdf_locals :=
  match ts with
  | [] => st
  | t :: rest =>
      after_pages rest (page_num + 1)
        {| pages := pages st ++ [page_record page_num t];
           full_text := full_text st ++ [t];
           total_text_length := total_text_length st + len (strip t) |}
  end.

Definition no_pages : pdf_locals :=
  {| pages := []; full_text := []; total_text_length := 0 |}.

(** The final [return] of [process_pdf]. *)
Definition text_extraction (st : pdf_locals) : result :=
  {| r_text := join [newline; newline] (full_text st);
     r_pages := pages st;
     r_metadata := PdfMeta (len (pages st)) (lit "text_extraction") None;
     r_status := None; r_error := None |}.

(** [avg_chars_per_page < 30], where the average is
    [total_text_length / num_pages], or [0] for a document without pages.
    The source divides in floating point; the comparison is made exactly
    here, and the two agree for any document of fewer than 2^49 pages. *)
Definition looks_scanned (total num_pages : Z) : bool :=
  if 0 <? num_pages then total <? 30 * num_pages else true.

(** The [try] block of [process_pdf]: the locals when it is left, and how
    it is left: by the [return] of the OCR branch ([Ret (Some r)]), by
    running to its end ([Ret None]) or by an exception. *)
Definition pdf_try (dp : DocumentProcessor) (file_path : text)
    : pdf_locals * Exc (option result) :=
  let st0 := no_pages in
  match pdf_reader file_path with
  | Raise e => (st0, Raise e)
  | Ret ps =>
      let num_pages := len ps in
      match read_pages ps 0 st0 with
      | (st, Some e) => (st, Raise e)
      | (st, None) =>
          match ocr_processor dp with
          | Some ocr =>
              if looks_scanned (total_text_length st) num_pages then
                (st,
                 ocr_result ← process_scanned_pdf ocr file_path (Z.min num_pages 20);
                 if decide (o_status ocr_result = lit "success") then
                   mret (Some
                     {| r_text := o_text ocr_result;
                        r_pages := o_pages ocr_result;
                        r_metadata := PdfMeta num_pages (lit "ocr")
                                        (Some (len (o_pages ocr_result)));
                        r_status := None; r_error := None |})
                 else mret None)
              else (st, Ret None)
          | None => (st, Ret None)
          end
      end
  end.

(** [DocumentProcessor.process_pdf]: an exception of the [try] block is
    printed and the method goes on to its final [return]. *)
Definition process_pdf (dp : DocumentProcessor) (file_path : text) : Exc result :=
  match pdf_try dp file_path with
  | (_, Ret (Some r)) => Ret r
  | (st, Ret None) => Ret (text_extraction st)
  | (st, Raise _) => Ret (text_extraction st)
  end.

Definition nonblank (s : text) : bool :=
  match strip s with [] => false | _ :: _ => true end.

Definition nonempty (s : text) : bool :=
  match s with [] => false | _ :: _ => true end.

(** [DocumentProcessor.process_docx] *)
Definition process_docx (dp : DocumentProcessor) (file_path : text) : Exc result :=
  doc ← docx_open file_path;
  let kept := List.filter (fun para => nonblank (fst para)) (paragraphs doc) in
  mret {| r_text := join [newline; newline] (map fst kept);
          r_pages := map (fun para => Paragraph (fst para) (snd para)) kept;
          r_metadata := DocxMeta (len kept) (len (tables doc))
                          (tables doc);
          r_status := None; r_error := None |}.

(** The rows of one sheet: [sheet_data] and [sheet_text]. *)
Definition sheet_rows (rows : list (list (option text)))
    : list (list text) * list text :=
  let sheet_data := map (map (fun cell => default [] cell)) rows in
  let row_texts :=
    map (fun row_data => join (lit " | ") (List.filter nonempty row_data))
        sheet_data in
  (sheet_data, List.filter nonempty row_texts).

(** [DocumentProcessor.process_xlsx] *)
Definition process_xlsx (dp : DocumentProcessor) (file_path : text) : Exc result :=
  wb ← xlsx_open file_path;
  let sheets :=
    map (fun sheet => (fst sheet, sheet_rows (snd sheet))) wb in
  mret {| r_text := join [newline; newline]
                      (concat (map (fun s => snd (snd s)) sheets));
          r_pages := map (fun s => SheetPage (fst s)
                                     (join [newline] (snd (snd s)))
                                     (fst (snd s))) sheets;
          r_metadata := XlsxMeta (len sheets) (map fst sheets);
          r_status := None; r_error := None |}.

(** [DocumentProcessor.process_image] *)
Definition process_image (dp : DocumentProcessor) (file_path : text) : Exc result :=
  catch
    (img ← image_open file_path;
     let fallback :=
       {| r_text := lit "[Image file - OCR not available]";
          r_pages := [ImagePage (img_size img) (img_format img) (img_mode img) None];
          r_metadata := ImageMeta (fst (img_size img)) (snd (img_size img))
                          (img_format img) None;
          r_status := None; r_error := None |} in
     match ocr_processor dp with
     | Some ocr =>
         ocr_result ← ocr_process_image ocr file_path default_language;
         if decide (o_status ocr_result = lit "success") then
           mret {| r_text := o_text ocr_result;
                   r_pages := [ImagePage (img_size img) (img_format img)
                                 (img_mode img) (Some (o_text ocr_result))];
                   r_metadata := ImageMeta (fst (img_size img)) (snd (img_size img))
                                   (img_format img) (Some (lit "gpt4_vision_ocr"));
                   r_status := None; r_error := None |}
         else mret fallback
     | None => mret fallback
     end)
    (fun e =>
       mret {| r_text := []; r_pages := []; r_metadata := NoMeta;
               r_status := None; r_error := Some (str_exn e) |}).

Definition processor : Type := DocumentProcessor -> text -> Exc result.

(** [self.supported_types.get(file_type)] *)
Definition supported_types (file_type : text) : option processor :=
  if decide (file_type = lit "application/pdf") then Some process_pdf
  else if decide (file_type =
    lit "application/vnd.openxmlformats-officedocument.wordprocessingml.document")
  then Some process_docx
  else if decide (file_type =
    lit "application/vnd.openxmlformats-officedocument.spreadsheetml.sheet")
  then Some process_xlsx
  else if decide (file_type = lit "image/png") then Some process_image
  else if decide (file_type = lit "image/jpeg") then Some process_image
  else if decide (file_type = lit "image/jpg") then Some process_image
  else None.

(** The dictionary of the [except] branch of [process_file]. *)
Definition error_result (e : exn) : result :=
  {| r_text := []; r_pages := []; r_metadata := NoMeta;
     r_status := Some (lit "error"); r_error := Some (str_exn e) |}.

(** [DocumentProcessor.process_file] *)
Definition process_file (dp : DocumentProcessor) (file_path file_type : text)
    : Exc result :=
  catch
    (match supported_types file_type with
     | None =>
         mret {| r_text := []; r_pages := []; r_metadata := NoMeta;
                 r_status := Some (lit "unsupported_type");
                 r_error := Some (lit "Unsupported file type: " ++ file_type) |}
     | Some process =>
         result ← process dp file_path;
         mret (set_status (lit "success") result)
     end)
    (fun e => mret (error_result e)).

End Processor.

End Extract.

Import Extract.

(** ** [vector_store.py] *)

Module Store.

(** A value of a metadata dictionary. *)
Inductive value : Type :=
  | VStr (s : text)
  | VInt (n : Z).

#[global] Instance value_eq_dec : EqDecision value.
Proof. solve_decision. Defined.

(** The components of an embedding and the distances of a query are
    never inspected by this code; integers stand in for them. *)
Definition scalar : Type := Z.
Definition vector : Type := list scalar.

(** One record of the collection. *)
Record entry : Type := mk_entry {
  e_document : text;
  e_embedding : vector;
  e_metadata : gmap string value
}.

(** The calls made to the collection. *)
Inductive call : Type :=
  | CallAdd (ids : list text) (embeddings : list vector)
      (metadatas : list (gmap string value)) (documents : list text)
  | CallQuery (query_embedding : vector) (n_results : Z)
      (where_ : option (gmap string value))
  | CallGet (key : string) (v : value)
  | CallDelete (ids : list text).

(** What [collection.query] returns: one inner list per query embedding. *)
Record query_results : Type := {
  q_documents : list (list text);
  q_metadatas : list (list (gmap string value));
  q_distances : list (list scalar)
}.

(** The dictionary returned by [search]. *)
Record search_result : Type := mk_search_result {
  s_documents : list text;
  s_metadatas : list (gmap string value);
  s_distances : list scalar
}.

(** The services behind [VectorStore]. *)
Class Services : Type := {
  (** [openai_client.embeddings.create(...).data[0].embedding] *)
  embeddings_create : text -> Exc vector;
  (** The exception with which the store rejects a call, if it does. *)
  store_raises : gmap text entry -> call -> option exn;
  (** The nearest-neighbour ranking of the store. *)
  nearest : gmap text entry -> vector -> Z -> option (gmap string value)
            -> query_results;
  (** The place of the record of an id in the order in which the store
      hands out records; the map does not record that order. *)
  arrival : gmap text entry -> text -> nat
}.

Section VectorStore.
Context `{Services}.

(** A call that the store may reject. *)
Definition guarded {A : Type} (c : gmap text entry) (k : call) (r : A) : Exc A :=
  match store_raises c k with
  | Some e => Raise e
  | None => Ret r
  end.

(** The collection of the external vector store (ChromaDB), whose code is
    not part of the repository: a finite map from ids to records.
    [collection.add] rejects a batch in which an id occurs twice;
    otherwise it stores a record under every id that the collection does
    not hold yet and leaves a record that is already stored under an id as
    it is. [get] selects by exact match of one metadata field, [delete]
    removes the given ids. A rejected call leaves the collection as it
    was. *)
Definition add_new (c : gmap text entry) (ids : list text)
    (embeddings : list vector) (metadatas : list (gmap string value))
    (documents : list text) : gmap text entry :=
  fold_left
    (fun acc x =>
       match acc !! fst x with
       | Some _ => acc
       | None => <[fst x := mk_entry (snd (snd (snd x))) (fst (snd x))
                                     (fst (snd (snd x)))]> acc
       end)
    (zip ids (zip embeddings (zip metadatas documents))) c.

(** Following the words of the spec ("upsert surviving tuples into the
    vector store keyed by id"): every record is written under its id, over
    a record that is already stored there. *)
Definition upsert (c : gmap text entry) (ids : list text)
    (embeddings : list vector) (metadatas : list (gmap string value))
    (documents : list text) : gmap text entry :=
  fold_left
    (fun acc x => <[fst x := mk_entry (snd (snd (snd x))) (fst (snd x))
                                      (fst (snd (snd x)))]> acc)
    (zip ids (zip embeddings (zip metadatas documents))) c.

Definition field_is (key : string) (v : value) (e : entry) : Prop :=
  e_metadata e !! key = Some v.

#[global] Instance field_is_dec key v e : Decision (field_is key v e).
Proof. unfold field_is. apply _. Defined.

Definition matching (c : gmap text entry) (key : string) (v : value)
    : gmap text entry :=
  filter (fun kv => field_is key v (snd kv)) c.

(** [collection.add(documents=..., embeddings=..., metadatas=..., ids=...)] *)
Definition collection_add (c : gmap text entry) (ids : list text)
    (embeddings : list vector) (metadatas : list (gmap string value))
    (documents : list text) : Exc (gmap text entry) :=
  if decide (NoDup ids) then
    guarded c (CallAdd ids embeddings metadatas documents)
      (add_new c ids embeddings metadatas documents)
  else
    (* [DuplicateIDError]; the message goes on with the repeated ids *)
    Raise (Exception (lit "Expected IDs to be unique")).

Definition collection_query (c : gmap text entry) (q : vector) (n_results : Z)
    (where_ : option (gmap string value)) : Exc query_results :=
  guarded c (CallQuery q n_results where_) (nearest c q n_results where_).

(** [collection.get(where={key: v})['ids']] *)
Definition collection_get (c : gmap text entry) (key : string) (v : value)
    : Exc (list text) :=
  guarded c (CallGet key v) (map fst (map_to_list (matching c key v))).

Definition collection_delete (c : gmap text entry) (ids : list text)
    : Exc (gmap text entry) :=
  guarded c (CallDelete ids) (fold_right delete c ids).

(** [VectorStore.get_embedding] *)
Definition get_embedding (t : text) : Exc vector :=
  catch (embeddings_create t) (fun _ => mret []).

(** One tuple of [valid_data]. *)
Definition row : Type := text * vector * gmap string value * text.

(** [zip(chunks, embeddings, metadatas, ids)] *)
Definition zip4 (chunks : list text) (embeddings : list vector)
    (metadatas : list (gmap string value)) (ids : list text) : list row :=
  map (fun x => (fst (fst (fst x)), snd (fst (fst x)), snd (fst x), snd x))
      (zip (zip (zip chunks embeddings) metadatas) ids).

(** The truth value of a list: [if emb]. *)
Definition truthy {A : Type} (l : list A) : bool :=
  match l with [] => false | _ :: _ => true end.

(** The comprehension that builds [valid_data]. *)
Definition valid_data (chunks : list text) (embeddings : list vector)
    (metadatas : list (gmap string value)) (ids : list text) : list row :=
  List.filter (fun r => truthy (snd (fst (fst r))))
    (zip4 chunks embeddings metadatas ids).

(** [VectorStore.add_documents], on the collection [c]: the value
    returned and the collection afterwards. *)
Definition add_documents (c : gmap text entry) (chunks : list text)
    (metadatas : list (gmap string value)) (ids : list text)
    : Exc (bool * gmap text entry) :=
  catch
    (embeddings ← mapM get_embedding chunks;
     let valid := valid_data chunks embeddings metadatas ids in
     if truthy valid then
       let chunks' := map (fun r => fst (fst (fst r))) valid in
       let embeddings' := map (fun r => snd (fst (fst r))) valid in
       let metadatas' := map (fun r => snd (fst r)) valid in
       let ids' := map (fun r => snd r) valid in
       c' ← collection_add c ids' embeddings' metadatas' chunks';
       mret (true, c')
     else mret (false, c))
    (fun _ => mret (false, c)).

Definition empty_search : search_result :=
  {| s_documents := []; s_metadatas := []; s_distances := [] |}.

(** [xs[0] if xs else []] *)
Definition first_or_empty {A : Type} (xs : list (list A)) : list A :=
  match xs with [] => [] | x :: _ => x end.

(** [VectorStore.search] *)
Definition search (c : gmap text entry) (query : text) (n_results : Z)
    (filter_dict : option (gmap string value)) : Exc search_result :=
  catch
    (query_embedding ← get_embedding query;
     if truthy query_embedding then
       results ← collection_query c query_embedding n_results filter_dict;
       mret {| s_documents := first_or_empty (q_documents results);
               s_metadatas := first_or_empty (q_metadatas results);
               s_distances := first_or_empty (q_distances results) |}
     else mret empty_search)
    (fun _ => mret empty_search).

(** [VectorStore.delete_document], on the collection [c]: the value
    returned and the collection afterwards. *)
Definition delete_document (c : gmap text entry) (document_name : text)
    : Exc (bool * gmap text entry) :=
  catch
    (ids ← collection_get c "document_name" (VStr document_name);
     if truthy ids then
       c' ← collection_delete c ids;
       mret (true, c')
     else mret (false, c))
    (fun _ => mret (false, c)).

(** The vector that [get_embedding] returns for a text: the one of the
    service, or the empty one when the service raises. *)
Definition embedding_of (t : text) : vector :=
  match embeddings_create t with
  | Raise _ => []
  | Ret v => v
  end.

(** The positions of [chunks] whose embedding is not empty, in order. *)
Definition surviving (chunks : list text) : list nat :=
  List.filter (fun k => truthy (embedding_of (nth k chunks [])))
    (seq 0 (length chunks)).

(** The elements of [l] at the positions [ks]. *)
Definition pick {A : Type} (d : A) (l : list A) (ks : list nat) : list A :=
  map (fun k => nth k l d) ks.

End VectorStore.

End Store.

(** ** [app.py]: uploads *)

Module App.

(** The dictionary [doc_info]. *)
Record doc_info : Type := {
  d_name : text;
  d_path : text;
  d_hash : text;
  d_size : Z;
  d_uploaded_at : text;
  d_status : text;
  d_type : text
}.

(** A Streamlit upload: its name, its type, and the outcome of [read()]. *)
Record uploaded_file : Type := {
  u_name : text;
  u_type : text;
  u_read : Exc bytes
}.

(** What [save_uploaded_file] reads and writes: the tracked documents
    [st.session_state.documents] and the files, each under the path by
    which the program opens it. *)
Record state : Type := {
  documents : list doc_info;
  files : gmap text bytes
}.

(** The host: the digest, the clock and the file system. *)
Class Host : Type := {
  (** [hashlib.sha256(b).hexdigest()] *)
  sha256_hexdigest : bytes -> text;
  (** [datetime.now().isoformat()] *)
  now_isoformat : text;
  (** The exception with which [open(path, 'wb')] fails, if it does; the
      files are then as before. *)
  open_raises : text -> option exn;
  (** The exception with which writing the bytes to the opened file
      fails, if it does, and the number of bytes that reached the file. *)
  write_raises : text -> bytes -> option (exn * nat)
}.

Definition slash : char := 47%N.
Definition dot : char := 46%N.

(** [s.split('/')] *)
Fixpoint split_slash (s : text) : list text :=
  match s with
  | [] => [[]]
  | c :: rest =>
      if (c =? slash)%N then [] :: split_slash rest
      else
        match split_slash rest with
        | [] => [[c]]
        | p :: ps => (c :: p) :: ps
        end
  end.

(** [s.lstrip('/')] *)
Fixpoint lstrip_slash (s : text) : text :=
  match s with
  | [] => []
  | c :: rest => if (c =? slash)%N then lstrip_slash rest else s
  end.

(** The components of a path that [pathlib] keeps: those that are neither
    empty nor ['.']. *)
Definition path_parts (s : text) : list text :=
  List.filter (fun x => negb (bool_decide (x = [] \/ x = [dot])))
    (split_slash s).

(** The root of a POSIX path: ['//'] for exactly two leading slashes,
    ['/'] for one or for more than two, none for a relative path. *)
Definition path_root (s : text) : text :=
  let n := len s - len (lstrip_slash s) in
  if n =? 0 then [] else if n =? 2 then [slash; slash] else [slash].

Section Upload.
Context `{Host}.

Definition get_file_hash (file_bytes : bytes) : text :=
  sha256_hexdigest file_bytes.

(** [str(DATA_DIR / name)] with [DATA_DIR = Path("data")], on a POSIX
    system: an absolute name replaces [data], empty and ['.'] components
    are dropped, ['..'] is kept. *)
Definition data_path (name : text) : text :=
  match path_root name with
  | [] => join [slash] (lit "data" :: path_parts name)
  | root => root ++ join [slash] (path_parts name)
  end.

(** [with open(file_path, 'wb') as f: f.write(file_bytes)]: the exception
    raised, if any, and the state afterwards. Opening the file creates it
    or empties it; a write that fails leaves in it the bytes written
    before. *)
Definition write_file (st : state) (file_path : text) (file_bytes : bytes)
    : option exn * state :=
  match open_raises file_path with
  | Some e => (Some e, st)
  | None =>
      match write_raises file_path file_bytes with
      | Some (e, n) =>
          (Some e,
           {| documents := documents st;
              files := <[file_path := take n file_bytes]> (files st) |})
      | None =>
          (None,
           {| documents := documents st;
              files := <[file_path := file_bytes]> (files st) |})
      end
  end.

(** The loop over the tracked documents with its early [return]. *)
Fixpoint is_duplicate (docs : list doc_info) (file_hash : text) : bool :=
  match docs with
  | [] => false
  | doc :: rest =>
      if decide (d_hash doc = file_hash) then true
      else is_duplicate rest file_hash
  end.

(** The [except] branch of [save_uploaded_file], in the state that the
    [try] block has reached. *)
Definition upload_error (e : exn) (st : state)
    : Exc ((option doc_info * option text) * state) :=
  Ret ((None, Some (str_exn e)), st).

(** [save_uploaded_file]: the pair returned and the state afterwards. *)
Definition save_uploaded_file (st : state) (up : uploaded_file)
    : Exc ((option doc_info * option text) * state) :=
  match u_read up with
  | Raise e => upload_error e st
  | Ret file_bytes =>
      let file_hash := get_file_hash file_bytes in
      if is_duplicate (documents st) file_hash then
        Ret ((None, Some (lit "Duplicate file detected")), st)
      else
        let file_path := data_path (u_name up) in
        match write_file st file_path file_bytes with
        | (Some e, st') => upload_error e st'
        | (None, st') =>
            let doc_info :=
              {| d_name := u_name up; d_path := file_path; d_hash := file_hash;
                 d_size := len file_bytes; d_uploaded_at := now_isoformat;
                 d_status := lit "uploaded"; d_type := u_type up |} in
            Ret ((Some doc_info, None), st')
        end
  end.

End Upload.

End App.

Import Store App.

(** ** Concrete inputs *)

Module Inputs.

Definition letter : char := 97%N.
Definition blank : char := 32%N.

(** 2400 letters followed by 100 spaces. *)
Definition trailing_blanks : text := repeat letter 2400 ++ repeat blank 100.

(** 2500 letters. *)
Definition letters_2500 : text := repeat letter 2500.

(** 900 letters. *)
Definition letters_900 : text := repeat letter 900.

(** A sentence end at the very start of a text of 1001 characters. *)
Definition early_boundary : text := lit ". " ++ repeat letter 999.

(** The last sentence end of the first window at offset 198, in a text of
    1001 characters. *)
Definition boundary_at_overlap : text :=
  repeat letter 198 ++ lit ". " ++ repeat letter 801.

(** Three PDF files. [broken.pdf]: the text of its second page cannot be
    extracted. [scan.pdf]: two pages with almost no text layer; the first
    page can be transcribed, the second cannot. [blank.pdf]: one page with
    almost no text layer, which cannot be transcribed. No other file can
    be opened. *)
Definition demo_libraries : Libraries := {|
  pdf_reader := fun path =>
    if decide (path = lit "broken.pdf") then
      Ret [Ret (lit "Hello"); Raise (Exception (lit "bad page"))]
    else if decide (path = lit "scan.pdf") then Ret [Ret (lit "scan"); Ret []]
    else if decide (path = lit "blank.pdf") then Ret [Ret (lit "scan")]
    else Raise (Exception (lit "no such file"));
  docx_open := fun _ => Raise (Exception (lit "not a Word file"));
  xlsx_open := fun _ => Raise (Exception (lit "not a workbook"));
  image_open := fun _ => Raise (Exception (lit "cannot identify image file"));
  read_file := fun _ => Raise (Exception (lit "no such file"));
  fitz_open := fun path =>
    if decide (path = lit "scan.pdf") then Ret 2
    else if decide (path = lit "blank.pdf") then Ret 1
    else Raise (Exception (lit "no such file"));
  fitz_page_png := fun path page_num =>
    if decide (path = lit "scan.pdf") then
      if page_num =? 0 then Ret [Byte.x01] else Ret [Byte.x00]
    else Ret [Byte.x00];
  vision_create := fun _ _ image =>
    match image with
    | [Byte.x01] => Ret (lit "A")
    | _ => Raise (Exception (lit "rate limit"))
    end
|}.

Definition with_ocr : DocumentProcessor :=
  {| ocr_processor := Some default_processor |}.

Definition without_ocr : DocumentProcessor := {| ocr_processor := None |}.

(** An embedding service that fails on the empty text and on nothing
    else, with a store that accepts every call. *)
Definition picky_services : Services := {|
  embeddings_create := fun t =>
    match t with
    | [] => Raise (Exception (lit "empty input"))
    | _ :: _ => Ret [len t]
    end;
  store_raises := fun _ _ => None;
  nearest := fun _ _ _ _ =>
    {| q_documents := []; q_metadatas := []; q_distances := [] |};
  arrival := fun _ _ => 0%nat
|}.

(** The same services with a store that rejects every deletion. *)
Definition readonly_services : Services := {|
  embeddings_create := fun t =>
    match t with
    | [] => Raise (Exception (lit "empty input"))
    | _ :: _ => Ret [len t]
    end;
  store_raises := fun _ k =>
    match k with
    | CallDelete _ => Some (Exception (lit "collection is read-only"))
    | _ => None
    end;
  nearest := fun _ _ _ _ =>
    {| q_documents := []; q_metadatas := []; q_distances := [] |};
  arrival := fun _ _ => 0%nat
|}.

Definition meta_of (document_name : string) (chunk_id : Z) : gmap string value :=
  <["document_name" := VStr (lit document_name)]>
    (<["chunk_id" := VInt chunk_id]> ∅).

(** A collection with two chunks of [a.pdf] and one of [b.pdf]. *)
Definition small_collection : gmap text entry :=
  <[lit "a_0" := mk_entry (lit "alpha") [5] (meta_of "a.pdf" 0)]>
    (<[lit "a_1" := mk_entry (lit "beta") [4] (meta_of "a.pdf" 1)]>
       (<[lit "b_0" := mk_entry (lit "gamma") [5] (meta_of "b.pdf" 0)]> ∅)).

(** A host whose digest is the content itself, read as code points. *)
Definition plain_host : Host := {|
  sha256_hexdigest := fun b => map Byte.to_N b;
  now_isoformat := lit "2024-01-01T00:00:00";
  open_raises := fun _ => None;
  write_raises := fun _ _ => None
|}.

Definition hello_bytes : bytes := [Byte.x68; Byte.x69].

Definition hello_doc : doc_info := {|
  d_name := lit "hello.txt"; d_path := lit "data/hello.txt";
  d_hash := map Byte.to_N hello_bytes; d_size := 2;
  d_uploaded_at := lit "2024-01-01T00:00:00"; d_status := lit "uploaded";
  d_type := lit "text/plain"
|}.

(** The windows of a text of 2500 characters without boundary markers. *)
Definition windows_2500 : list (Z * Z) :=
  [(0, 1000); (800, 1800); (1600, 2600); (2400, 3400)].

End Inputs.

Import Inputs.

(** ** [app.py]: the session, processing and deletion *)

Module Ingest.

(** A document dictionary of [st.session_state.documents]: the keys set
    at upload, and the keys ['error'] and ['num_chunks'] that
    [process_document] may add. *)
Record tracked : Type := {
  t_info : doc_info;
  t_error : option text;
  t_num_chunks : option Z
}.

(** The names and the digests of the tracked documents are pairwise
    distinct. *)
Definition distinct_documents (docs : list tracked) : Prop :=
  List.NoDup (map (fun doc => d_name (t_info doc)) docs)
  /\ List.NoDup (map (fun doc => d_hash (t_info doc)) docs).

(** A freshly uploaded document. *)
Definition fresh (info : doc_info) : tracked :=
  {| t_info := info; t_error := None; t_num_chunks := None |}.

(** [doc_info['status'] = s] *)
Definition with_status (s : text) (doc : tracked) : tracked :=
  {| t_info := {| d_name := d_name (t_info doc); d_path := d_path (t_info doc);
                  d_hash := d_hash (t_info doc); d_size := d_size (t_info doc);
                  d_uploaded_at := d_uploaded_at (t_info doc);
                  d_status := s; d_type := d_type (t_info doc) |};
     t_error := t_error doc; t_num_chunks := t_num_chunks doc |}.

(** [doc_info['error'] = msg] *)
Definition with_error (msg : text) (doc : tracked) : tracked :=
  {| t_info := t_info doc; t_error := Some msg;
     t_num_chunks := t_num_chunks doc |}.

(** [doc_info['num_chunks'] = n] *)
Definition with_num_chunks (n : Z) (doc : tracked) : tracked :=
  {| t_info := t_info doc; t_error := t_error doc; t_num_chunks := Some n |}.

(** The metadata dictionary of chunk [idx]. *)
Definition chunk_metadata (info : doc_info) (idx : Z) : gmap string value :=
  <["document_name" := VStr (d_name info)]>
    (<["chunk_id" := VInt idx]>
       (<["page" := VInt (idx / 3 + 1)]>
          (<["uploaded_at" := VStr (d_uploaded_at info)]> ∅))).

(** [f"{doc_info['hash']}_{idx}"] *)
Definition chunk_id (file_hash : text) (idx : Z) : text :=
  file_hash ++ lit "_" ++ lit (pretty idx).

(** The [for idx, chunk in enumerate(chunks)] loop, from index [idx] on. *)
Fixpoint index_chunks (info : doc_info) (chunks : list text) (idx : Z)
    (metadatas : list (gmap string value)) (ids : list text)
    : list (gmap string value) * list text :=
  match chunks with
  | [] => (metadatas, ids)
  | _ :: rest =>
      index_chunks info rest (idx + 1)
        (metadatas ++ [chunk_metadata info idx])
        (ids ++ [chunk_id (d_hash info) idx])
  end.

(** What the session holds: the tracked documents, the files (by path)
    and the collection of the vector store. *)
Record session : Type := {
  ss_documents : list tracked;
  ss_files : gmap text bytes;
  ss_collection : gmap text entry
}.

(** The part of the session that [save_uploaded_file] reads and writes. *)
Definition app_state (s : session) : state :=
  {| documents := map t_info (ss_documents s); files := ss_files s |}.


(** The memory of the machine: whether it is exhausted when the list
    [chunks] of [chunk_text] is to grow by one more chunk. *)
Class Machine : Type := { out_of_memory : list text -> bool }.

(** [MemoryError()], an [Exception] whose message is empty. *)
Definition memory_error : exn := Exception [].

Section Session.
Context `{Libraries} `{Services} `{Host} `{Disk} `{Machine}.

(** The loop of [chunk_text] on this machine: it returns its chunks, or
    it raises [MemoryError] when the list cannot grow, or it is still
    running after [fuel] iterations. *)
Fixpoint chunk_loop_run (fuel : nat) (t : text) (chunk_size overlap : Z)
    (start : Z) (chunks : list text) : option (Exc (list text)) :=
  match fuel with
  | O => None
  | S fuel' =>
      if start <? len t then
        let end_ := window_end t chunk_size start in
        let chunk := strip (slice t start end_) in
        match chunk with
        | [] => chunk_loop_run fuel' t chunk_size overlap (end_ - overlap) chunks
        | _ :: _ =>
            if out_of_memory chunks then Some (Raise memory_error)
            else chunk_loop_run fuel' t chunk_size overlap (end_ - overlap)
                   (chunks ++ [chunk])
        end
      else Some (Ret chunks)
  end.

(** [chunk_text] on this machine. *)
Definition chunk_text_run (fuel : nat) (t : text) (chunk_size overlap : Z)
    : option (Exc (list text)) :=
  match t with
  | [] => Some (Ret [])
  | _ :: _ => chunk_loop_run fuel t chunk_size overlap 0 []
  end.

(** The [except] branch of [process_document]. *)
Definition document_error (e : exn) (doc : tracked) : tracked :=
  with_error (str_exn e) (with_status (lit "error") doc).

(** [process_document], on the collection [c], with default chunking
    parameters: the value returned, the document dictionary and the
    collection afterwards; [None] when the chunker is still running after
    [fuel] iterations. *)
Definition process_document (fuel : nat) (dp : DocumentProcessor)
    (c : gmap text entry) (doc_info : tracked)
    : option (bool * tracked * gmap text entry) :=
  let doc := with_status (lit "processing") doc_info in
  match process_file dp (d_path (t_info doc)) (d_type (t_info doc)) with
  | Raise e => Some (false, document_error e doc, c)
  | Ret result =>
      match r_status result with
      | None => Some (false, document_error (Exception (lit "'status'")) doc, c)
      | Some status =>
          if decide (status <> lit "success") then
            Some (false,
                  with_error (default (lit "Unknown error") (r_error result))
                    (with_status (lit "failed_parsing") doc),
                  c)
          else
            match chunk_text_run fuel (r_text result) 1000 200 with
            | None => None
            | Some (Raise e) => Some (false, document_error e doc, c)
            | Some (Ret chunks) =>
                if truthy chunks then
                  let '(metadatas, ids) :=
                    index_chunks (t_info doc) chunks 0 [] [] in
                  match add_documents c chunks metadatas ids with
                  | Raise e => Some (false, document_error e doc, c)
                  | Ret (success, c') =>
                      if success then
                        Some (true,
                              with_num_chunks (len chunks)
                                (with_status (lit "indexed") doc),
                              c')
                      else
                        Some (false,
                              with_error (lit "Failed to add to vector store")
                                (with_status (lit "failed_indexing") doc),
                              c')
                  end
                else
                  Some (false,
                        with_error (lit "No text extracted")
                          (with_status (lit "failed_parsing") doc),
                        c)
            end
      end
  end.

(** [name in [doc['name'] for doc in st.session_state.documents]] *)
Fixpoint name_tracked (name : text) (docs : list tracked) : bool :=
  match docs with
  | [] => false
  | doc :: rest =>
      if decide (d_name (t_info doc) = name) then true
      else name_tracked name rest
  end.

(** The body of the upload loop for one uploaded file (lines 153-160);
    the messages shown are left out. *)
Definition handle_upload (s : session) (up : uploaded_file) : Exc session :=
  if name_tracked (u_name up) (ss_documents s) then Ret s
  else
    r ← save_uploaded_file (app_state s) up;
    match fst (fst r) with
    | Some doc_info =>
        mret {| ss_documents := ss_documents s ++ [fresh doc_info];
                ss_files := files (snd r);
                ss_collection := ss_collection s |}
    | None =>
        mret {| ss_documents := ss_documents s;
                ss_files := files (snd r);
                ss_collection := ss_collection s |}
    end.

(** [for uploaded_file in uploaded_files: ...] *)
Fixpoint handle_uploads (s : session) (ups : list uploaded_file) : Exc session :=
  match ups with
  | [] => Ret s
  | up :: rest => s' ← handle_upload s up; handle_uploads s' rest
  end.

(** [doc['status'] in ['uploaded', 'failed_parsing', 'failed_indexing']] *)
Definition to_process (doc : tracked) : bool :=
  bool_decide (In (d_status (t_info doc))
                 [lit "uploaded"; lit "failed_parsing"; lit "failed_indexing"]).

(** The loop of the "Process All Documents" button over the documents
    [docs] (lines 212-216): the documents and the collection afterwards. *)
Fixpoint process_all (fuel : nat) (dp : DocumentProcessor)
    (docs : list tracked) (c : gmap text entry)
    : option (list tracked * gmap text entry) :=
  match docs with
  | [] => Some ([], c)
  | doc :: rest =>
      if to_process doc then
        match process_document fuel dp c doc with
        | None => None
        | Some (_, doc', c') =>
            match process_all fuel dp rest c' with
            | None => None
            | Some (rest', c'') => Some (doc' :: rest', c'')
            end
        end
      else
        match process_all fuel dp rest c with
        | None => None
        | Some (rest', c') => Some (doc :: rest', c')
        end
  end.



End Session.

End Ingest.

Import Ingest.

(** ** [rag_engine.py] *)

Module Rag.

(** The arguments of [client.chat.completions.create]; the temperature
    is the decimal literal of the call, as numerator and denominator. *)
Record request : Type := {
  rq_model : text;
  rq_system : text;
  rq_user : text;
  rq_temperature : Z * Z;
  rq_max_tokens : Z
}.

(** What [RAGEngine] relies on besides the vector store. *)
Class Assistant : Type := {
  (** [client.chat.completions.create(...).choices[0].message.content] *)
  chat_create : request -> Exc text;
  (** [str.lower] *)
  str_lower : text -> text
}.

Record RAGEngine : Type := { system_prompt : text }.

(** The dictionary returned by [generate_response] and [query]; [query]
    adds the last three keys, and its early return has no ['model_used']. *)
Record answer : Type := {
  a_answer : text;
  a_sources : list text;
  a_model_used : option text;
  a_success : bool;
  a_error : option text;
  a_needs_visualization : option bool;
  a_documents : option (list text);
  a_metadatas : option (list (gmap string value))
}.

(** The dictionary returned by [summarize_document]. *)
Record summary : Type := {
  sm_summary : text;
  sm_document_name : option text;
  sm_success : bool;
  sm_error : option text
}.

(** The Arabic heading of the context, line 68: [السياق من المستندات:] *)
Definition user_context_ar : text :=
  [1575; 1604; 1587; 1610; 1575; 1602; 32; 1605; 1606; 32; 1575; 1604;
   1605; 1587; 1578; 1606; 1583; 1575; 1578; 58]%N.

(** The Arabic question label, line 71: [السؤال: ] *)
Definition user_question_ar : text :=
  [1575; 1604; 1587; 1572; 1575; 1604; 58; 32]%N.

(** The Arabic request of line 73: [الرجاء الإجابة بناءً على السياق أعلاه فقط، مع ذكر المصادر.] *)
Definition user_request_ar : text :=
  [1575; 1604; 1585; 1580; 1575; 1569; 32; 1575; 1604; 1573; 1580; 1575;
   1576; 1577; 32; 1576; 1606; 1575; 1569; 1611; 32; 1593; 1604; 1609; 32;
   1575; 1604; 1587; 1610; 1575; 1602; 32; 1571; 1593; 1604; 1575; 1607;
   32; 1601; 1602; 1591; 1548; 32; 1605; 1593; 32; 1584; 1603; 1585; 32;
   1575; 1604; 1605; 1589; 1575; 1583; 1585; 46]%N.

(** The Arabic half of the answer of line 141: [لا توجد مستندات ذات صلة للإجابة على هذا السؤال.] *)
Definition no_documents_ar : text :=
  [1604; 1575; 32; 1578; 1608; 1580; 1583; 32; 1605; 1587; 1578; 1606;
   1583; 1575; 1578; 32; 1584; 1575; 1578; 32; 1589; 1604; 1577; 32; 1604;
   1604; 1573; 1580; 1575; 1576; 1577; 32; 1593; 1604; 1609; 32; 1607;
   1584; 1575; 32; 1575; 1604; 1587; 1572; 1575; 1604; 46]%N.

(** The keyword [بياني] of line 147 *)
Definition kw_bayani : text :=
  [1576; 1610; 1575; 1606; 1610]%N.

(** The keyword [رسم] of line 147 *)
Definition kw_rasm : text :=
  [1585; 1587; 1605]%N.

(** The keyword [جدول] of line 147 *)
Definition kw_jadwal : text :=
  [1580; 1583; 1608; 1604]%N.

(** The keyword [مخطط] of line 147 *)
Definition kw_mukhattat : text :=
  [1605; 1582; 1591; 1591]%N.

(** The keyword [مقارنة] of line 147 *)
Definition kw_muqarana : text :=
  [1605; 1602; 1575; 1585; 1606; 1577]%N.

(** The keyword [قارن] of line 147 *)
Definition kw_qarin : text :=
  [1602; 1575; 1585; 1606]%N.

(** The word [مستند] of line 181 *)
Definition block_document_ar : text :=
  [1605; 1587; 1578; 1606; 1583]%N.

(** The word [المصدر] of line 182 *)
Definition block_source_ar : text :=
  [1575; 1604; 1605; 1589; 1583; 1585]%N.

(** The word [صفحة] of line 182 *)
Definition block_page_ar : text :=
  [1589; 1601; 1581; 1577]%N.

(** The word [النص] of line 183 *)
Definition block_text_ar : text :=
  [1575; 1604; 1606; 1589]%N.

(** A metadata value inside an f-string. *)
Definition render (v : value) : text :=
  match v with
  | VStr s => s
  | VInt n => lit (pretty n)
  end.

(** [meta.get(key, 'Unknown')], as formatted in an f-string. *)
Definition meta_field (meta : gmap string value) (key : string) : text :=
  match meta !! key with
  | Some v => render v
  | None => lit "Unknown"
  end.

(** [f"{doc_name} - Page {page}"] *)
Definition source_of (meta : gmap string value) : text :=
  meta_field meta "document_name" ++ lit " - Page " ++ meta_field meta "page".

(** The loop of [_extract_sources] with its locals [sources] and [seen]. *)
Fixpoint extract_loop (metadata : list (gmap string value))
    (sources : list text) (seen : gset text) : list text :=
  match metadata with
  | [] => sources
  | meta :: rest =>
      let source := source_of meta in
      if decide (source ∈ seen) then extract_loop rest sources seen
      else extract_loop rest (sources ++ [source]) (seen ∪ {[source]})
  end.

(** [RAGEngine._extract_sources] *)
Definition extract_sources (metadata : list (gmap string value)) : list text :=
  extract_loop metadata [] ∅.

(** The block that [_build_context] appends for document number [idx]
    (lines 181-186). *)
Definition context_block (idx : Z) (doc : text) (meta : gmap string value)
    : text :=
  lit "[" ++ block_document_ar ++ lit " " ++ lit (pretty idx)
  ++ lit " | Document " ++ lit (pretty idx) ++ lit "]" ++ [newline]
  ++ block_source_ar ++ lit " | Source: " ++ meta_field meta "document_name"
  ++ lit " (" ++ block_page_ar ++ lit " | Page " ++ meta_field meta "page"
  ++ lit ")" ++ [newline]
  ++ block_text_ar ++ lit " | Text:" ++ [newline]
  ++ doc ++ [newline]
  ++ lit "---" ++ [newline].

(** The loop over [enumerate(zip(documents, metadata), 1)], from [idx] on. *)
Fixpoint context_parts (idx : Z) (pairs : list (text * gmap string value))
    : list text :=
  match pairs with
  | [] => []
  | p :: rest => context_block idx (fst p) (snd p) :: context_parts (idx + 1) rest
  end.

(** [RAGEngine._build_context] *)
Definition build_context (documents : list text)
    (metadata : list (gmap string value)) : text :=
  join [newline] (context_parts 1 (zip documents metadata)).

(** The user message of [generate_response] (lines 68-81). *)
Definition user_message (context query : text) : text :=
  user_context_ar ++ [newline] ++ context ++ [newline; newline]
  ++ user_question_ar ++ query ++ [newline; newline]
  ++ user_request_ar ++ [newline; newline]
  ++ lit "Context from documents:" ++ [newline] ++ context
  ++ [newline; newline]
  ++ lit "Question: " ++ query ++ [newline; newline]
  ++ lit "Please answer based only on the context above, citing sources."
  ++ [newline].

(** The list [viz_keywords] of line 147. *)
Definition viz_keywords : list text :=
  [lit "table"; lit "chart"; lit "graph"; lit "compare"; lit "comparison";
   kw_bayani; kw_rasm; kw_jadwal; kw_mukhattat; kw_muqarana; kw_qarin].

(** The answer of [query] when nothing was retrieved (lines 140-144). *)
Definition no_documents_answer : answer :=
  {| a_answer := no_documents_ar ++ [newline; newline]
       ++ lit "No relevant documents found to answer this question.";
     a_sources := []; a_model_used := None; a_success := false;
     a_error := None; a_needs_visualization := None; a_documents := None;
     a_metadatas := None |}.

Section Engine.
Context `{Services} `{Assistant}.

(** [RAGEngine.generate_response] *)
Definition generate_response (eng : RAGEngine) (query : text)
    (context_docs : list text) (metadata : list (gmap string value))
    (model : text) : Exc answer :=
  catch
    (let context := build_context context_docs metadata in
     answer ← chat_create
       {| rq_model := model; rq_system := system_prompt eng;
          rq_user := user_message context query;
          rq_temperature := (3, 10); rq_max_tokens := 1000 |};
     let sources := extract_sources metadata in
     mret {| a_answer := answer; a_sources := sources;
             a_model_used := Some model; a_success := true; a_error := None;
             a_needs_visualization := None; a_documents := None;
             a_metadatas := None |})
    (fun e =>
       mret {| a_answer := lit "Error generating response: " ++ str_exn e;
               a_sources := []; a_model_used := Some model;
               a_success := false; a_error := Some (str_exn e);
               a_needs_visualization := None; a_documents := None;
               a_metadatas := None |}).

(** [any(keyword in question.lower() for keyword in viz_keywords)] *)
Definition needs_visualization (question : text) : bool :=
  existsb (fun keyword => occurs keyword (str_lower question)) viz_keywords.

(** [RAGEngine.query], on the collection [c] of its vector store. *)
Definition query (eng : RAGEngine) (c : gmap text entry) (question : text)
    (n_results : Z) (model : text) : Exc answer :=
  catch
    (search_results ← search c question n_results None;
     let documents := s_documents search_results in
     let metadata := s_metadatas search_results in
     if truthy documents then
       let flag := needs_visualization question in
       result ← generate_response eng question documents metadata model;
       mret {| a_answer := a_answer result; a_sources := a_sources result;
               a_model_used := a_model_used result;
               a_success := a_success result; a_error := a_error result;
               a_needs_visualization := Some flag;
               a_documents := Some documents;
               a_metadatas := Some metadata |}
     else mret no_documents_answer)
    (fun e =>
       mret {| a_answer := lit "Error processing query: " ++ str_exn e;
               a_sources := []; a_model_used := None; a_success := false;
               a_error := Some (str_exn e); a_needs_visualization := None;
               a_documents := None; a_metadatas := None |}).

(** The order in which the store hands out two of its records. *)
Definition by_arrival (c : gmap text entry) (a b : text * entry) : Prop :=
  (arrival c (fst a) <= arrival c (fst b))%nat.

#[global] Instance by_arrival_dec c a b : Decision (by_arrival c a b).
Proof. unfold by_arrival. apply _. Defined.

(** [collection.get(where={"document_name": name})['documents']]: the
    texts of the matching records, in the order of the store. *)
Definition collection_get_documents (c : gmap text entry)
    (document_name : text) : Exc (list text) :=
  guarded c (CallGet "document_name" (VStr document_name))
    (map (fun kv => e_document (snd kv))
       (merge_sort (by_arrival c)
          (map_to_list (matching c "document_name" (VStr document_name))))).

(** The user message of [summarize_document] (line 234). *)
Definition summary_message (full_text : text) : text :=
  lit "Please provide a concise summary of the following document in both Arabic and English:"
  ++ [newline; newline] ++ slice full_text 0 4000.

(** [RAGEngine.summarize_document], on the collection [c]. *)
Definition summarize_document (eng : RAGEngine) (c : gmap text entry)
    (document_name : text) : Exc summary :=
  catch
    (documents ← collection_get_documents c document_name;
     if truthy documents then
       let full_text := join [newline; newline] documents in
       content ← chat_create
         {| rq_model := lit "gpt-4o-mini";
            rq_system :=
              lit "You are a helpful assistant that creates concise summaries.";
            rq_user := summary_message full_text;
            rq_temperature := (5, 10); rq_max_tokens := 500 |};
       mret {| sm_summary := content; sm_document_name := Some document_name;
               sm_success := true; sm_error := None |}
     else
       mret {| sm_summary := lit "No content found for " ++ document_name;
               sm_document_name := None; sm_success := false;
               sm_error := None |})
    (fun e =>
       mret {| sm_summary := lit "Error generating summary: " ++ str_exn e;
               sm_document_name := None; sm_success := false;
               sm_error := Some (str_exn e) |}).

End Engine.

End Rag.

Import Rag.

(** ** Contiguous parts of a text *)

Module Parts.

(** [d] is a contiguous part of [s]. *)
Definition part_of (d s : text) : Prop := exists pre post, s = pre ++ d ++ post.

End Parts.

Import Parts.

(** ** More concrete inputs *)

Module MoreInputs.

(** A Word file whose only text is in a table, and a workbook with one
    sheet of empty cells. *)
Definition office_libraries : Libraries := {|
  pdf_reader := fun _ => Raise (Exception (lit "no such file"));
  docx_open := fun _ =>
    Ret {| paragraphs := [(lit "  ", lit "Normal"); ([], lit "Normal")];
           tables := [[[lit "a"; lit "b"]]] |};
  xlsx_open := fun _ => Ret [(lit "Sheet1", [[None; Some []]; [None]])];
  image_open := fun _ => Raise (Exception (lit "cannot identify image file"));
  read_file := fun _ => Raise (Exception (lit "no such file"));
  fitz_open := fun _ => Raise (Exception (lit "no such file"));
  fitz_page_png := fun _ _ => Raise (Exception (lit "no such file"));
  vision_create := fun _ _ _ => Raise (Exception (lit "rate limit"))
|}.

(** A document whose processing ended in status ['error']. *)
Definition errored_doc : tracked :=
  {| t_info := {| d_name := lit "old.pdf"; d_path := lit "data/old.pdf";
                  d_hash := lit "def"; d_size := 7;
                  d_uploaded_at := lit "2024-01-01T00:00:00";
                  d_status := lit "error"; d_type := lit "application/pdf" |};
     t_error := Some (lit "out of memory"); t_num_chunks := None |}.

(** A machine whose memory holds one chunk. *)
Definition tiny_machine : Machine :=
  {| out_of_memory := fun chunks => (1 <=? length chunks)%nat |}.

(** Two PDF files of one page each: the text of [stalled.pdf] is
    [boundary_at_overlap], the text of every other file is [Hello]. *)
Definition stalling_libraries : Libraries := {|
  pdf_reader := fun path =>
    if decide (path = lit "data/stalled.pdf") then Ret [Ret boundary_at_overlap]
    else Ret [Ret (lit "Hello")];
  docx_open := fun _ => Raise (Exception (lit "not a Word file"));
  xlsx_open := fun _ => Raise (Exception (lit "not a workbook"));
  image_open := fun _ => Raise (Exception (lit "cannot identify image file"));
  read_file := fun _ => Raise (Exception (lit "no such file"));
  fitz_open := fun _ => Raise (Exception (lit "no such file"));
  fitz_page_png := fun _ _ => Raise (Exception (lit "no such file"));
  vision_create := fun _ _ _ => Raise (Exception (lit "rate limit"))
|}.

Definition stalled_doc : tracked :=
  fresh {| d_name := lit "stalled.pdf"; d_path := lit "data/stalled.pdf";
           d_hash := lit "0a"; d_size := 1001;
           d_uploaded_at := lit "2024-01-01T00:00:00";
           d_status := lit "uploaded"; d_type := lit "application/pdf" |}.

Definition short_doc : tracked :=
  fresh {| d_name := lit "short.pdf"; d_path := lit "data/short.pdf";
           d_hash := lit "0b"; d_size := 5;
           d_uploaded_at := lit "2024-01-01T00:00:00";
           d_status := lit "uploaded"; d_type := lit "application/pdf" |}.

(** A chat model that always answers [ok], and one that is down; the
    questions given to them are already in lower case. *)
Definition ok_assistant : Assistant :=
  {| chat_create := fun _ => Ret (lit "ok"); str_lower := fun t => t |}.

Definition down_assistant : Assistant :=
  {| chat_create := fun _ => Raise (Exception (lit "timeout"));
     str_lower := fun t => t |}.

Definition demo_engine : RAGEngine := {| system_prompt := lit "Answer." |}.




End MoreInputs.

Import MoreInputs.

(** * Properties *)

(** ** Slices, [rfind] and [strip] *)

Section TextFacts.

Lemma clamp_index_nonneg n i : 0 <= i -> clamp_index n i = Z.min i n.
Proof. intros Hi. unfold clamp_index. destruct (Z.ltb_spec i 0); lia. Qed.

(** A slice from a non-negative offset whose end lies beyond the text is
    the rest of the text. *)
Lemma slice_to_end {A : Type} (l : list A) (i j : Z) :
  0 <= i -> len l <= j -> slice l i j = skipn (Z.to_nat i) l.
Proof.
  intros Hi Hj. unfold slice, len in *.
  rewrite !clamp_index_nonneg by lia.
  destruct (Z.le_gt_cases i (Z.of_nat (length l))) as [Hle | Hgt].
  - rewrite (Z.min_l i) by lia. rewrite (Z.min_r j) by lia.
    apply firstn_all2. rewrite length_skipn. lia.
  - rewrite (Z.min_r i) by lia. rewrite (Z.min_r j) by lia.
    rewrite !skipn_all2 by lia. now destruct (Z.to_nat _).
Qed.

Lemma slice_whole {A : Type} (l : list A) (j : Z) :
  len l <= j -> slice l 0 j = l.
Proof. intros Hj. rewrite slice_to_end by lia. reflexivity. Qed.

(** A slice between two offsets inside the text. *)
Lemma slice_inside {A : Type} (l : list A) (i j : Z) :
  0 <= i <= j -> j <= len l ->
  slice l i j = firstn (Z.to_nat (j - i)) (skipn (Z.to_nat i) l).
Proof.
  intros Hi Hj. unfold slice, len in *.
  rewrite !clamp_index_nonneg by lia.
  rewrite (Z.min_l i) by lia. rewrite (Z.min_l j) by lia. reflexivity.
Qed.

Lemma slice_length_inside {A : Type} (l : list A) (i j : Z) :
  0 <= i <= j -> j <= len l -> len (slice l i j) = j - i.
Proof.
  intros Hi Hj. rewrite slice_inside by lia. unfold len in *.
  rewrite length_firstn, length_skipn. lia.
Qed.

Lemma rfind_from_none (sub s : text) (i last : Z) :
  0 <= i ->
  rfind_from s sub i last = -1 <-> last = -1 /\ occurs sub s = false.
Proof.
  revert i last. induction s as [| c s IH]; intros i last Hi.
  - cbn [rfind_from occurs]. rewrite orb_false_r.
    destruct (startswith sub []); split; intros; try lia; intuition congruence.
  - cbn [rfind_from occurs]. rewrite IH by lia.
    destruct (startswith sub (c :: s)); cbn [orb]; split; intros [? ?];
      try lia; try discriminate; auto.
Qed.

Lemma rfind_none (sub s : text) : rfind s sub = -1 <-> occurs sub s = false.
Proof. unfold rfind. rewrite rfind_from_none by lia. intuition. Qed.

Lemma startswith_firstn (sub s : text) (k : nat) :
  startswith sub (firstn k s) = true -> startswith sub s = true.
Proof.
  revert s k. induction sub as [| c sub IH]; intros s k; [reflexivity |].
  destruct s as [| d s]; [now rewrite firstn_nil |].
  destruct k as [| k]; [discriminate |].
  cbn [firstn startswith]. intros [-> Hs]%andb_prop.
  now rewrite (IH _ _ Hs).
Qed.

Lemma occurs_firstn (sub s : text) (k : nat) :
  sub <> [] -> occurs sub (firstn k s) = true -> occurs sub s = true.
Proof.
  intros Hsub. revert k. induction s as [| d s IH]; intros k.
  - now rewrite firstn_nil.
  - destruct k as [| k].
    + destruct sub; [congruence | discriminate].
    + cbn [firstn occurs]. intros [Hs | Ho]%orb_prop.
      * apply (startswith_firstn sub (d :: s) (S k)) in Hs. now rewrite Hs.
      * rewrite (IH _ Ho). apply orb_true_r.
Qed.

Lemma occurs_skipn (sub s : text) (k : nat) :
  sub <> [] -> occurs sub (skipn k s) = true -> occurs sub s = true.
Proof.
  intros Hsub. revert s. induction k as [| k IH]; intros s; [auto |].
  destruct s as [| d s]; [auto |].
  cbn [skipn occurs]. intros Ho. rewrite (IH _ Ho). apply orb_true_r.
Qed.

(** A marker that does not occur in a text occurs in none of its slices. *)
Lemma rfind_slice_none (sub t : text) (i j : Z) :
  sub <> [] -> rfind t sub = -1 -> rfind (slice t i j) sub = -1.
Proof.
  intros Hsub Ht. apply rfind_none. apply rfind_none in Ht.
  destruct (occurs sub (slice t i j)) eqn:Ho; [| reflexivity].
  unfold slice in Ho.
  apply occurs_firstn in Ho; [| assumption].
  apply occurs_skipn in Ho; [| assumption]. congruence.
Qed.

Lemma lstrip_fixed (s : text) :
  match s with [] => True | c :: _ => isspace c = false end -> lstrip s = s.
Proof. destruct s as [| c s]; [reflexivity |]. cbn. now intros ->. Qed.

Lemma lstrip_head (s : text) :
  match lstrip s with [] => True | c :: _ => isspace c = false end.
Proof.
  induction s as [| c s IH]; [exact I |].
  cbn. destruct (isspace c) eqn:Hc; [exact IH | exact Hc].
Qed.

Lemma lstrip_idem (s : text) : lstrip (lstrip s) = lstrip s.
Proof. apply lstrip_fixed, lstrip_head. Qed.

Lemma lstrip_snoc (s : text) (c : char) :
  isspace c = false -> lstrip (s ++ [c]) = lstrip s ++ [c].
Proof.
  intros Hc. induction s as [| d s IH]; cbn.
  - now rewrite Hc.
  - destruct (isspace d); [exact IH | reflexivity].
Qed.

(** Trimming on the right keeps a first character that is not whitespace. *)
Lemma rstrip_head (s : text) :
  match s with [] => True | c :: _ => isspace c = false end ->
  match rstrip s with [] => True | c :: _ => isspace c = false end.
Proof.
  destruct s as [| c s]; [intros _; exact I |]. intros Hc.
  unfold rstrip. cbn [rev]. rewrite lstrip_snoc by assumption.
  rewrite rev_app_distr. cbn. exact Hc.
Qed.

Lemma rstrip_idem (s : text) : rstrip (rstrip s) = rstrip s.
Proof. unfold rstrip. now rewrite rev_involutive, lstrip_idem. Qed.

(** [s.strip().strip() == s.strip()] *)
Lemma strip_idem (s : text) : strip (strip s) = strip s.
Proof.
  unfold strip at 1.
  rewrite (lstrip_fixed (strip s)) by apply rstrip_head, lstrip_head.
  apply rstrip_idem.
Qed.

End TextFacts.

(** ** The chunker *)

Section ChunkerFacts.

Lemma chunk_loop_step (fuel : nat) (t : text) (size overlap start : Z)
    (chunks : list text) :
  chunk_loop (S fuel) t size overlap start chunks =
  if start <? len t then
    chunk_loop fuel t size overlap (window_end t size start - overlap)
      (append_chunk chunks (strip (slice t start (window_end t size start))))
  else Some chunks.
Proof. reflexivity. Qed.

Lemma window_loop_step (fuel : nat) (t : text) (size overlap start : Z) :
  window_loop (S fuel) t size overlap start =
  if start <? len t then
    option_map (cons (start, window_end t size start))
      (window_loop fuel t size overlap (window_end t size start - overlap))
  else Some [].
Proof. reflexivity. Qed.

Lemma chunk_text_loop (fuel : nat) (t : text) (size overlap : Z) :
  0 < len t -> chunk_text fuel t size overlap = chunk_loop fuel t size overlap 0 [].
Proof. destruct t; [intros Hl; vm_compute in Hl; discriminate | reflexivity]. Qed.

Lemma chunk_windows_loop (fuel : nat) (t : text) (size overlap : Z) :
  0 < len t -> chunk_windows fuel t size overlap = window_loop fuel t size overlap 0.
Proof. destruct t; [intros Hl; vm_compute in Hl; discriminate | reflexivity]. Qed.

(** The chunks are the trimmed, non-empty slices of the windows. *)
Lemma chunk_loop_windows (fuel : nat) (t : text) (size overlap start : Z)
    (chunks : list text) :
  chunk_loop fuel t size overlap start chunks =
  option_map
    (fun ws => fold_left
       (fun acc w => append_chunk acc (strip (slice t (fst w) (snd w)))) ws chunks)
    (window_loop fuel t size overlap start).
Proof.
  revert start chunks. induction fuel as [| fuel IH]; intros start chunks.
  - reflexivity.
  - rewrite chunk_loop_step, window_loop_step.
    destruct (start <? len t); [| reflexivity].
    rewrite IH. now destruct (window_loop fuel t size overlap _).
Qed.

Lemma chunk_text_windows (fuel : nat) (t : text) (size overlap : Z) :
  chunk_text fuel t size overlap =
  option_map (chunks_of t) (chunk_windows fuel t size overlap).
Proof.
  destruct t as [| c t]; [reflexivity |].
  unfold chunk_text, chunk_windows. apply chunk_loop_windows.
Qed.

(** More fuel does not change a result. *)
Lemma chunk_loop_fuel (fuel fuel' : nat) (t : text) (size overlap start : Z)
    (chunks r : list text) :
  chunk_loop fuel t size overlap start chunks = Some r ->
  (fuel <= fuel')%nat ->
  chunk_loop fuel' t size overlap start chunks = Some r.
Proof.
  revert fuel' start chunks.
  induction fuel as [| fuel IH]; intros fuel' start chunks Hr Hle.
  - discriminate.
  - destruct fuel' as [| fuel']; [lia |].
    rewrite chunk_loop_step in *.
    destruct (start <? len t); [| assumption].
    apply IH; [assumption | lia].
Qed.

Lemma chunk_text_fuel (fuel fuel' : nat) (t : text) (size overlap : Z)
    (r : list text) :
  chunk_text fuel t size overlap = Some r ->
  (fuel <= fuel')%nat ->
  chunk_text fuel' t size overlap = Some r.
Proof.
  destruct t; [auto |]. unfold chunk_text. apply chunk_loop_fuel.
Qed.

(** [chunk_text] returns at most one list. *)
Lemma returns_unique (t : text) (size overlap : Z) (r r' : list text) :
  returns t size overlap r -> returns t size overlap r' -> r = r'.
Proof.
  intros [f Hf] [f' Hf'].
  apply (chunk_text_fuel _ (Nat.max f f')) in Hf; [| lia].
  apply (chunk_text_fuel _ (Nat.max f f')) in Hf'; [| lia].
  congruence.
Qed.

Lemma break_at_boundary_none (t : text) (start end_ : Z) (puncts : list text) :
  Forall (fun punct => punct <> [] /\ rfind t punct = -1) puncts ->
  break_at_boundary t start end_ puncts = end_.
Proof.
  induction 1 as [| punct rest [Hne Hnone] _ IH]; [reflexivity |].
  cbn [break_at_boundary].
  rewrite (rfind_slice_none punct t start end_ Hne Hnone). exact IH.
Qed.

(** Without boundary markers every window has the full size. *)
Lemma window_end_no_boundary (t : text) (size start : Z) :
  no_boundary t = true -> window_end t size start = start + size.
Proof.
  intros Hnb. unfold window_end.
  destruct (start + size <? len t); [| reflexivity].
  apply break_at_boundary_none.
  unfold no_boundary in Hnb. rewrite forallb_forall in Hnb.
  apply List.Forall_forall. intros punct Hin. split.
  - intros ->. cbn in Hin. intuition discriminate.
  - apply Z.eqb_eq, Hnb, Hin.
Qed.

Lemma append_chunk_nonempty (chunks : list text) (chunk : text) :
  0 < len chunk -> append_chunk chunks chunk = chunks ++ [chunk].
Proof. destruct chunk; [intros Hl; vm_compute in Hl; discriminate | reflexivity]. Qed.

(** Every chunk that [append_chunk] adds to a list of non-empty trimmed
    chunks is itself non-empty and trimmed. *)
Lemma append_chunk_trimmed (chunks : list text) (s : text) :
  Forall (fun c => c <> [] /\ strip c = c) chunks ->
  Forall (fun c => c <> [] /\ strip c = c) (append_chunk chunks (strip s)).
Proof.
  intros Hall. destruct (strip s) as [| c rest] eqn:Hs; [exact Hall |].
  cbn [append_chunk]. apply Forall_app. split; [exact Hall |].
  constructor; [| constructor]. split; [discriminate |].
  rewrite <- Hs. apply strip_idem.
Qed.

Lemma chunk_loop_trimmed (fuel : nat) (t : text) (size overlap start : Z)
    (chunks r : list text) :
  Forall (fun c => c <> [] /\ strip c = c) chunks ->
  chunk_loop fuel t size overlap start chunks = Some r ->
  Forall (fun c => c <> [] /\ strip c = c) r.
Proof.
  revert start chunks. induction fuel as [| fuel IH]; intros start chunks Hall.
  - discriminate.
  - rewrite chunk_loop_step. destruct (start <? len t).
    + apply IH, append_chunk_trimmed, Hall.
    + now intros [= <-].
Qed.

(** X1. Whenever [chunk_text] returns, none of its chunks is empty and
    trimming a chunk again leaves it unchanged. *)
Lemma chunk_text_trimmed (t : text) (size overlap : Z) (r : list text) :
  returns t size overlap r -> Forall (fun c => c <> [] /\ strip c = c) r.
Proof.
  intros [fuel Hr]. destruct t as [| c t].
  - injection Hr as <-. constructor.
  - apply (chunk_loop_trimmed fuel (c :: t) size overlap 0 []); [constructor | exact Hr].
Qed.

Lemma window_loop_no_boundary (fuel : nat) (t : text) (size overlap start : Z) :
  no_boundary t = true -> start < len t ->
  window_loop (S fuel) t size overlap start =
  option_map (cons (start, start + size))
    (window_loop fuel t size overlap (start + size - overlap)).
Proof.
  intros Hnb Hlt. rewrite window_loop_step.
  rewrite (proj2 (Z.ltb_lt _ _) Hlt).
  now rewrite window_end_no_boundary.
Qed.

Lemma window_loop_done (fuel : nat) (t : text) (size overlap start : Z) :
  len t <= start -> window_loop (S fuel) t size overlap start = Some [].
Proof.
  intros Hge. rewrite window_loop_step.
  now rewrite (proj2 (Z.ltb_ge _ _) Hge).
Qed.

(** Without boundary markers, and with [0 <= overlap < chunk_size], the
    loop ends: the start advances by [chunk_size - overlap] each time. *)
Lemma window_loop_terminates (t : text) (size overlap : Z) (fuel : nat)
    (start : Z) :
  0 <= overlap < size -> no_boundary t = true ->
  len t - start <= Z.of_nat fuel ->
  exists ws, window_loop (S fuel) t size overlap start = Some ws.
Proof.
  intros Hpar Hnb. revert start.
  induction fuel as [| fuel IH]; intros start Hfuel.
  - rewrite window_loop_done by lia. now eexists.
  - destruct (Z.lt_ge_cases start (len t)) as [Hlt | Hge].
    + rewrite window_loop_no_boundary by assumption.
      destruct (IH (start + size - overlap)) as [ws Hws]; [lia |].
      rewrite Hws. now eexists.
    + rewrite window_loop_done by assumption. now eexists.
Qed.

(** X3. With an overlap that is not negative and smaller than the chunk
    size, [chunk_text] returns on every text that holds none of the five
    boundary markers. *)
Lemma chunk_text_terminates_no_boundary (t : text) (size overlap : Z) :
  0 <= overlap < size -> no_boundary t = true ->
  exists r, returns t size overlap r.
Proof.
  intros Hpar Hnb.
  destruct (window_loop_terminates t size overlap (length t) 0 Hpar Hnb)
    as [ws Hws]; [unfold len; lia |].
  destruct t as [| c t]; [exists [], 0%nat; reflexivity |].
  exists (chunks_of (c :: t) ws), (S (length (c :: t))).
  rewrite chunk_text_windows. unfold chunk_windows. now rewrite Hws.
Qed.

(** As long as no window starts at a negative offset, the windows of the
    loop cover every offset of the text from the first start on. *)
Lemma window_loop_covers (fuel : nat) (t : text) (size overlap start k : Z)
    (ws : list (Z * Z)) :
  0 <= overlap ->
  window_loop fuel t size overlap start = Some ws ->
  Forall (fun w => 0 <= fst w) ws ->
  0 <= start <= k -> k < len t ->
  covered t ws k = true.
Proof.
  intros Hov. revert start ws.
  induction fuel as [| fuel IH]; intros start ws Hws Hpos Hk Hlen;
    [discriminate |].
  rewrite window_loop_step in Hws.
  rewrite (proj2 (Z.ltb_lt start (len t))) in Hws by lia.
  destruct (window_loop fuel t size overlap (window_end t size start - overlap))
    as [ws' |] eqn:Hnext; [| discriminate].
  injection Hws as <-. cbn [covered existsb].
  destruct (Z.lt_ge_cases k (window_end t size start)) as [Hin | Hout].
  - unfold covers. cbn [fst snd].
    rewrite !clamp_index_nonneg by lia.
    replace (_ <=? k) with true by (symmetry; apply Z.leb_le; lia).
    replace (k <? _) with true by (symmetry; apply Z.ltb_lt; lia).
    reflexivity.
  - apply orb_true_iff. right. inversion Hpos as [| w l _ Hpos']; subst.
    apply (IH (window_end t size start - overlap)); try assumption; try lia.
    destruct fuel as [| fuel']; [discriminate |].
    rewrite window_loop_step in Hnext.
    destruct (Z.ltb_spec (window_end t size start - overlap) (len t)); [| lia].
    destruct (window_loop fuel' t size overlap _); [| discriminate].
    injection Hnext as <-. inversion Hpos'; subst. cbn [fst] in *. lia.
Qed.

(** X2. With an overlap that is not negative, whenever [chunk_text]
    returns and no window starts at a negative offset, every character of
    the text lies in some window. *)
Lemma chunk_windows_cover (fuel : nat) (t : text) (size overlap k : Z)
    (ws : list (Z * Z)) :
  0 <= overlap ->
  chunk_windows fuel t size overlap = Some ws ->
  Forall (fun w => 0 <= fst w) ws ->
  0 <= k < len t ->
  covered t ws k = true.
Proof.
  intros Hov Hws Hpos Hk. destruct t as [| c t].
  - unfold len in Hk. cbn [length] in Hk. lia.
  - apply (window_loop_covers fuel (c :: t) size overlap 0 k ws);
      try assumption; lia.
Qed.

Lemma chunk_windows_2500 (t : text) (fuel : nat) :
  len t = 2500 -> no_boundary t = true ->
  chunk_windows (5 + fuel) t 1000 200 = Some windows_2500.
Proof.
  intros Hlen Hnb. rewrite chunk_windows_loop by lia.
  change (5 + fuel)%nat with (S (S (S (S (S fuel))))).
  rewrite (window_loop_no_boundary _ t 1000 200 0) by (assumption || lia).
  change (0 + 1000 - 200) with 800.
  rewrite (window_loop_no_boundary _ t 1000 200 800) by (assumption || lia).
  change (800 + 1000 - 200) with 1600.
  rewrite (window_loop_no_boundary _ t 1000 200 1600) by (assumption || lia).
  change (1600 + 1000 - 200) with 2400.
  rewrite (window_loop_no_boundary _ t 1000 200 2400) by (assumption || lia).
  change (2400 + 1000 - 200) with 3200.
  rewrite window_loop_done by lia. reflexivity.
Qed.

End ChunkerFacts.

(** C1, as amended. For every text of exactly 2500 characters in which no
    boundary marker occurs, [chunk_text(text, 1000, 200)] runs four windows,
    starting at the offsets 0, 800, 1600 and 2400, the last one of length
    100; it returns the trimmed slices of these windows, without those
    that trim to the empty string. When trimming changes none of the four
    slices, the chunks are the slices themselves: four chunks, at those
    offsets, the last of length 100. *)
Theorem chunk_text_2500 (t : text) (fuel : nat) :
  len t = 2500 -> no_boundary t = true -> (5 <= fuel)%nat ->
  chunk_windows fuel t 1000 200 = Some windows_2500
  /\ len (slice t 2400 3400) = 100
  /\ chunk_text fuel t 1000 200 = Some (chunks_of t windows_2500)
  /\ (Forall (fun w => strip (slice t (fst w) (snd w)) = slice t (fst w) (snd w))
        windows_2500 ->
      chunk_text fuel t 1000 200 =
      Some [slice t 0 1000; slice t 800 1800; slice t 1600 2600; slice t 2400 3400]).
Proof.
  intros Hlen Hnb Hfuel.
  replace fuel with (5 + (fuel - 5))%nat by lia.
  pose proof (chunk_windows_2500 t (fuel - 5) Hlen Hnb) as Hw.
  assert (Hlast : len (slice t 2400 3400) = 100).
  { rewrite slice_to_end by lia. unfold len in *. rewrite length_skipn. lia. }
  repeat split; try assumption.
  - rewrite chunk_text_windows, Hw. reflexivity.
  - intros Hfix. rewrite chunk_text_windows, Hw. cbn [option_map]. f_equal.
    unfold windows_2500 in *.
    inversion Hfix as [| ? ? H0 Hfix1]; subst.
    inversion Hfix1 as [| ? ? H1 Hfix2]; subst.
    inversion Hfix2 as [| ? ? H2 Hfix3]; subst.
    inversion Hfix3 as [| ? ? H3 _]; subst.
    cbn [fst snd] in *. unfold chunks_of. cbn [fold_left fst snd].
    rewrite H0, H1, H2, H3.
    assert (L0 : 0 < len (slice t 0 1000))
      by (rewrite slice_length_inside by lia; lia).
    assert (L1 : 0 < len (slice t 800 1800))
      by (rewrite slice_length_inside by lia; lia).
    assert (L2 : 0 < len (slice t 1600 2600)).
    { rewrite slice_to_end by lia. unfold len in *. rewrite length_skipn. lia. }
    assert (L3 : 0 < len (slice t 2400 3400)) by lia.
    rewrite (append_chunk_nonempty _ _ L0), (append_chunk_nonempty _ _ L1),
      (append_chunk_nonempty _ _ L2), (append_chunk_nonempty _ _ L3).
    reflexivity.
Qed.

(** Witness of [chunk_text_2500]: 2500 letters. *)
Lemma chunk_text_2500_witness :
  chunk_text 5 letters_2500 1000 200 =
  Some [repeat letter 1000; repeat letter 1000; repeat letter 900;
        repeat letter 100].
Proof.
  destruct (chunk_text_2500 letters_2500 5) as (_ & _ & _ & Hchunks).
  - vm_compute. reflexivity.
  - vm_compute. reflexivity.
  - lia.
  - rewrite Hchunks.
    + vm_compute. reflexivity.
    + unfold windows_2500. repeat constructor; vm_compute; reflexivity.
Defined.

(** C1, as stated, fails on 2400 letters followed by 100 spaces: the text
    has 2500 characters and no boundary marker, yet [chunk_text] does not
    return four chunks with a last chunk of length 100 (it returns three
    chunks, the last of length 800). *)
Lemma chunk_text_2500_trailing_blanks :
  len trailing_blanks = 2500
  /\ no_boundary trailing_blanks = true
  /\ returns trailing_blanks 1000 200
       [repeat letter 1000; repeat letter 1000; repeat letter 800]
  /\ ~ (exists c0 c1 c2 c3,
         returns trailing_blanks 1000 200 [c0; c1; c2; c3] /\ len c3 = 100).
Proof.
  assert (Hr : returns trailing_blanks 1000 200
                 [repeat letter 1000; repeat letter 1000; repeat letter 800]).
  { exists 5%nat. vm_compute. reflexivity. }
  split; [vm_compute; reflexivity |].
  split; [vm_compute; reflexivity |].
  split; [exact Hr |].
  intros (c0 & c1 & c2 & c3 & Hr' & _).
  pose proof (returns_unique _ _ _ _ _ Hr Hr') as Heq. discriminate Heq.
Qed.

(** C2: the code at the failing input. On a text of 1001 characters that
    begins with a sentence end, [chunk_text(text, 1000, 200)] returns, its
    windows are [text[0:2]], [text[-198:802]] (an empty slice) and
    [text[602:1602]], and the character at offset 2 lies in none of them:
    the returned chunks do not cover the input. *)
Theorem chunk_text_leaves_gap :
  chunk_windows 4 early_boundary 1000 200 = Some [(0, 2); (-198, 802); (602, 1602)]
  /\ chunk_text 4 early_boundary 1000 200 = Some [lit "."; repeat letter 399]
  /\ 2 < len early_boundary
  /\ covered early_boundary [(0, 2); (-198, 802); (602, 1602)] 2 = false.
Proof.
  split; [vm_compute; reflexivity |].
  split; [vm_compute; reflexivity |].
  split; vm_compute; reflexivity.
Qed.

Section Stall.

Lemma boundary_at_overlap_window : window_end boundary_at_overlap 1000 0 = 200.
Proof. vm_compute. reflexivity. Qed.

Lemma boundary_at_overlap_loop (fuel : nat) (chunks : list text) :
  chunk_loop fuel boundary_at_overlap 1000 200 0 chunks = None.
Proof.
  revert chunks. induction fuel as [| fuel IH]; intros chunks; [reflexivity |].
  rewrite chunk_loop_step, boundary_at_overlap_window.
  change (0 <? len boundary_at_overlap) with true. cbv iota.
  change (200 - 200) with 0. apply IH.
Qed.

End Stall.

(** C3: the code at the failing input. On a text of 1001 characters whose
    first window has its last sentence end at offset 198, the first
    iteration of [chunk_text(text, 1000, 200)] leaves [start] at 0 (an
    advance of zero), and the loop never ends. *)
Theorem chunk_text_stalls :
  0 <= 200 < 1000
  /\ window_end boundary_at_overlap 1000 0 - 200 = 0
  /\ diverges boundary_at_overlap 1000 200.
Proof.
  split; [lia |]. split; [vm_compute; reflexivity |].
  intros fuel. rewrite chunk_text_loop by (vm_compute; reflexivity).
  apply boundary_at_overlap_loop.
Qed.

(** C4, as amended. For every text shorter than 1000 characters,
    [chunk_text(text, 1000, 200)] returns. When the text has at most 800
    characters, the result is the trimmed text as the only chunk, or the
    empty list when the text trims to the empty string. When it has more
    than 800 characters, a second window starts at offset 800: the result
    is the trimmed text followed by the trimmed tail [text[800:]], each of
    them only when it is not empty. *)
Theorem chunk_text_short (t : text) (fuel : nat) :
  len t < 1000 -> (3 <= fuel)%nat ->
  chunk_text fuel t 1000 200 =
  Some (if len t <=? 800 then append_chunk [] (strip t)
        else append_chunk (append_chunk [] (strip t)) (strip (skipn 800 t))).
Proof.
  intros Hlen Hfuel.
  destruct t as [| c t'] eqn:Ht; [reflexivity |]. rewrite <- Ht in *.
  assert (Hpos : 0 < len t) by (subst t; unfold len; cbn [length]; lia).
  clear Ht. rewrite chunk_text_loop by assumption.
  destruct fuel as [| [| [| fuel]]]; try lia.
  assert (Hend : forall start, 0 <= start -> window_end t 1000 start = start + 1000).
  { intros start Hs. unfold window_end.
    now rewrite (proj2 (Z.ltb_ge _ _)) by lia. }
  rewrite chunk_loop_step, (proj2 (Z.ltb_lt _ _) Hpos), Hend by lia.
  change (0 + 1000) with 1000. rewrite slice_whole by lia.
  change (1000 - 200) with 800. rewrite chunk_loop_step.
  destruct (Z.leb_spec (len t) 800) as [Hle | Hgt].
  - now rewrite (proj2 (Z.ltb_ge _ _)) by lia.
  - rewrite (proj2 (Z.ltb_lt _ _)), Hend by lia.
    change (800 + 1000) with 1800. rewrite slice_to_end by lia.
    change (1800 - 200) with 1600. rewrite chunk_loop_step.
    now rewrite (proj2 (Z.ltb_ge _ _)) by lia.
Qed.

(** Witness of [chunk_text_short]: 900 letters give two chunks. *)
Lemma chunk_text_short_witness :
  chunk_text 3 letters_900 1000 200 = Some [letters_900; repeat letter 100].
Proof.
  rewrite (chunk_text_short letters_900 3).
  - vm_compute. reflexivity.
  - vm_compute. reflexivity.
  - lia.
Defined.

(** C4, as stated, fails on 900 letters: the text is shorter than
    [chunk_size], and [chunk_text] returns two chunks, not the trimmed
    input alone. *)
Lemma chunk_text_short_two_chunks :
  len letters_900 < 1000
  /\ returns letters_900 1000 200 [letters_900; repeat letter 100]
  /\ ~ returns letters_900 1000 200 [strip letters_900]
  /\ ~ returns letters_900 1000 200 [].
Proof.
  assert (Hr : returns letters_900 1000 200 [letters_900; repeat letter 100]).
  { exists 3%nat. vm_compute. reflexivity. }
  split; [vm_compute; reflexivity |].
  split; [exact Hr |].
  split; intros Hr'; pose proof (returns_unique _ _ _ _ _ Hr Hr') as Heq;
    apply (f_equal (@length text)) in Heq; discriminate Heq.
Qed.

(** ** The vector store *)

Section StoreFacts.
Context `{Services}.

Lemma get_embedding_ret (t : text) : get_embedding t = Ret (embedding_of t).
Proof.
  unfold get_embedding, embedding_of. now destruct (embeddings_create t).
Qed.

(** A failure of the embedding service surfaces as the empty vector. *)
Lemma get_embedding_failure (t : text) (e : exn) :
  embeddings_create t = Raise e -> get_embedding t = Ret [].
Proof. intros He. unfold get_embedding. now rewrite He. Qed.

Lemma mapM_get_embedding (chunks : list text) :
  mapM get_embedding chunks = Ret (map embedding_of chunks).
Proof.
  induction chunks as [| c chunks IH]; [reflexivity |].
  cbn [mapM map]. fold (mapM get_embedding chunks).
  rewrite get_embedding_ret, IH. reflexivity.
Qed.

(** With as many metadatas and ids as chunks, the rows of the [zip] are
    the rows at the positions [0 .. n-1]. *)
Lemma zip4_positions (chunks : list text) (metadatas : list (gmap string value))
    (ids : list text) :
  length metadatas = length chunks -> length ids = length chunks ->
  zip4 chunks (map embedding_of chunks) metadatas ids =
  map (fun k => (nth k chunks [], embedding_of (nth k chunks []),
                 nth k metadatas ∅, nth k ids []))
      (seq 0 (length chunks)).
Proof.
  revert metadatas ids.
  induction chunks as [| c chunks IH]; intros metadatas ids Hm Hi;
    [reflexivity |].
  destruct metadatas as [| m metadatas]; [discriminate |].
  destruct ids as [| i ids]; [discriminate |].
  injection Hm as Hm. injection Hi as Hi.
  specialize (IH metadatas ids Hm Hi). unfold zip4 in *.
  cbn [length seq map zip zip_with fst snd nth]. f_equal.
  rewrite IH, <- seq_shift, map_map. reflexivity.
Qed.

Lemma valid_data_positions (chunks : list text)
    (metadatas : list (gmap string value)) (ids : list text) :
  length metadatas = length chunks -> length ids = length chunks ->
  valid_data chunks (map embedding_of chunks) metadatas ids =
  map (fun k => (nth k chunks [], embedding_of (nth k chunks []),
                 nth k metadatas ∅, nth k ids []))
      (surviving chunks).
Proof.
  intros Hm Hi. unfold valid_data, surviving.
  rewrite zip4_positions by assumption. apply filter_map_swap.
Qed.

Lemma surviving_spec (chunks : list text) (k : nat) :
  In k (surviving chunks) <->
  (k < length chunks)%nat /\ get_embedding (nth k chunks []) <> Ret [].
Proof.
  unfold surviving. rewrite filter_In, in_seq, get_embedding_ret.
  destruct (embedding_of (nth k chunks [])) eqn:He; cbn [truthy].
  - split; [intros [_ ?]; discriminate | intros [_ Hne]; now destruct Hne].
  - split; [intros [[_ Hlt] _] | intros [Hlt _]]; split;
      try lia; try reflexivity; discriminate.
Qed.

(** Deleting the ids that [get] returns leaves the records that do not
    match. *)
Lemma delete_matching (c : gmap text entry) (key : string) (v : value) :
  fold_right delete c (map fst (map_to_list (matching c key v))) =
  filter (fun kv => ~ field_is key v (snd kv)) c.
Proof.
  apply map_eq. intros i.
  destruct (matching c key v !! i) as [e |] eqn:Hm.
  - rewrite lookup_foldr_delete.
    + symmetry. apply map_lookup_filter_None. right. intros x Hx Hnot.
      apply map_lookup_filter_Some in Hm as [Hc Hf]. cbn in *. congruence.
    + apply list_elem_of_In, in_map_iff. exists (i, e). split; [reflexivity |].
      apply list_elem_of_In, elem_of_map_to_list, Hm.
  - rewrite lookup_foldr_delete_not_elem_of.
    + destruct (c !! i) as [e |] eqn:Hc.
      * symmetry. apply map_lookup_filter_Some. split; [assumption |].
        cbn. intros Hf.
        assert (matching c key v !! i = Some e) as Hyes
          by (apply map_lookup_filter_Some; split; assumption).
        congruence.
      * symmetry. apply map_lookup_filter_None. now left.
    + intros [[j e] [Hj He]]%list_elem_of_In%in_map_iff. cbn in Hj. subst j.
      apply list_elem_of_In, elem_of_map_to_list in He. congruence.
Qed.

Lemma matching_ids_empty (c : gmap text entry) (key : string) (v : value) :
  truthy (map fst (map_to_list (matching c key v))) = false <->
  ~ exists id e, c !! id = Some e /\ field_is key v e.
Proof.
  destruct (map_to_list (matching c key v)) as [| [i e] l] eqn:Hl; cbn.
  - split; [| reflexivity]. intros _ (id & e & Hc & Hf).
    apply map_to_list_empty_iff in Hl.
    assert (matching c key v !! id = Some e) as Hyes
      by (apply map_lookup_filter_Some; split; assumption).
    rewrite Hl, lookup_empty in Hyes. discriminate.
  - split; [discriminate |]. intros Hno. exfalso. apply Hno.
    assert ((i, e) ∈ map_to_list (matching c key v)) as Hin
      by (rewrite Hl; left).
    apply elem_of_map_to_list, map_lookup_filter_Some in Hin as [Hc Hf].
    now exists i, e.
Qed.

Lemma zip_map_map {A B C : Type} (f : A -> B) (g : A -> C) (l : list A) :
  zip (map f l) (map g l) = map (fun x => (f x, g x)) l.
Proof. induction l as [| x l IH]; [reflexivity |]. cbn. now rewrite <- IH. Qed.

(** [collection.add] leaves a stored record as it is. *)
Lemma add_new_stored (l : list (text * (vector * (gmap string value * text))))
    (c : gmap text entry) (id : text) (old : entry) :
  c !! id = Some old ->
  fold_left
    (fun acc x =>
       match acc !! fst x with
       | Some _ => acc
       | None => <[fst x := mk_entry (snd (snd (snd x))) (fst (snd x))
                                     (fst (snd (snd x)))]> acc
       end) l c !! id
  = Some old.
Proof.
  revert c. induction l as [| x l IH]; intros c Hold; [exact Hold |].
  cbn [fold_left]. apply IH.
  destruct (c !! fst x) eqn:Hx; [exact Hold |].
  rewrite lookup_insert_ne; [exact Hold | congruence].
Qed.

(** [collection.add] touches no id outside the batch. *)
Lemma add_new_other (l : list (text * (vector * (gmap string value * text))))
    (c : gmap text entry) (id : text) :
  ~ In id (map fst l) ->
  fold_left
    (fun acc x =>
       match acc !! fst x with
       | Some _ => acc
       | None => <[fst x := mk_entry (snd (snd (snd x))) (fst (snd x))
                                     (fst (snd (snd x)))]> acc
       end) l c !! id
  = c !! id.
Proof.
  revert c. induction l as [| x l IH]; intros c Hnot; [reflexivity |].
  cbn [fold_left]. rewrite IH by (intros Hin; apply Hnot; now right).
  destruct (c !! fst x); [reflexivity |].
  apply lookup_insert_ne. intros Heq. apply Hnot. now left.
Qed.

(** [collection.add] stores the record of an id that is new. *)
Lemma add_new_fresh (l : list (text * (vector * (gmap string value * text))))
    (c : gmap text entry) (x : text * (vector * (gmap string value * text))) :
  NoDup (map fst l) -> In x l -> c !! fst x = None ->
  fold_left
    (fun acc x =>
       match acc !! fst x with
       | Some _ => acc
       | None => <[fst x := mk_entry (snd (snd (snd x))) (fst (snd x))
                                     (fst (snd (snd x)))]> acc
       end) l c !! fst x
  = Some (mk_entry (snd (snd (snd x))) (fst (snd x)) (fst (snd (snd x)))).
Proof.
  revert c. induction l as [| y l IH]; intros c Hnd Hin Hnew; [destruct Hin |].
  cbn [map] in Hnd. apply NoDup_cons in Hnd as [Hy Hnd].
  cbn [fold_left]. destruct Hin as [-> | Hin].
  - rewrite Hnew. apply add_new_stored, lookup_insert_eq.
  - apply IH; [exact Hnd | exact Hin |].
    assert (fst y <> fst x) as Hne.
    { intros Heq. apply Hy. rewrite Heq.
      apply list_elem_of_In, in_map. exact Hin. }
    destruct (c !! fst y); [exact Hnew |].
    now rewrite lookup_insert_ne.
Qed.

(** The batch that [add_documents] hands to the store, by position. *)
Lemma batch_positions (chunks : list text) (metadatas : list (gmap string value))
    (ids : list text) (ks : list nat) :
  zip (pick [] ids ks)
    (zip (map embedding_of (pick [] chunks ks))
       (zip (pick ∅ metadatas ks) (pick [] chunks ks)))
  = map (fun k => (nth k ids [],
                   (embedding_of (nth k chunks []),
                    (nth k metadatas ∅, nth k chunks [])))) ks.
Proof.
  unfold pick. rewrite map_map, !zip_map_map. reflexivity.
Qed.

(** What [add_documents] does, in terms of the rows of [valid_data]. *)
Lemma add_documents_run (c : gmap text entry) (chunks : list text)
    (metadatas : list (gmap string value)) (ids : list text) :
  let valid := valid_data chunks (map embedding_of chunks) metadatas ids in
  let ids' := map (fun r : row => snd r) valid in
  let embeddings' := map (fun r : row => snd (fst (fst r))) valid in
  let metadatas' := map (fun r : row => snd (fst r)) valid in
  let chunks' := map (fun r : row => fst (fst (fst r))) valid in
  add_documents c chunks metadatas ids =
  Ret (if truthy valid then
         if decide (NoDup ids') then
           match store_raises c (CallAdd ids' embeddings' metadatas' chunks') with
           | Some _ => (false, c)
           | None => (true, add_new c ids' embeddings' metadatas' chunks')
           end
         else (false, c)
       else (false, c)).
Proof.
  intros valid ids' embeddings' metadatas' chunks'.
  unfold add_documents. rewrite mapM_get_embedding. exc_simpl. fold valid.
  destruct (truthy valid); [| reflexivity].
  subst ids' embeddings' metadatas' chunks'.
  unfold collection_add, guarded.
  destruct (decide (NoDup _)); [| reflexivity].
  destruct (store_raises c _); reflexivity.
Qed.

(** The same, by the positions that survive. *)
Lemma add_documents_positions (c : gmap text entry) (chunks : list text)
    (metadatas : list (gmap string value)) (ids : list text) :
  length metadatas = length chunks -> length ids = length chunks ->
  let ks := surviving chunks in
  let ids' := pick [] ids ks in
  let embeddings' := map embedding_of (pick [] chunks ks) in
  let metadatas' := pick ∅ metadatas ks in
  let chunks' := pick [] chunks ks in
  add_documents c chunks metadatas ids =
  Ret (if truthy ks then
         if decide (NoDup ids') then
           match store_raises c (CallAdd ids' embeddings' metadatas' chunks') with
           | Some _ => (false, c)
           | None => (true, add_new c ids' embeddings' metadatas' chunks')
           end
         else (false, c)
       else (false, c)).
Proof.
  intros Hm Hi ks ids' embeddings' metadatas' chunks'.
  rewrite add_documents_run. cbv zeta.
  rewrite valid_data_positions by assumption. fold ks.
  rewrite !map_map. cbn [fst snd].
  unfold ids', embeddings', metadatas', chunks', pick. rewrite map_map.
  now destruct ks.
Qed.

(** What a batch of pairwise distinct ids leaves in the collection. *)
Lemma add_new_positions (c : gmap text entry) (chunks : list text)
    (metadatas : list (gmap string value)) (ids : list text) (ks : list nat) :
  NoDup (pick [] ids ks) ->
  let c' := add_new c (pick [] ids ks) (map embedding_of (pick [] chunks ks))
              (pick ∅ metadatas ks) (pick [] chunks ks) in
  (forall id old, c !! id = Some old -> c' !! id = Some old)
  /\ (forall k, In k ks -> c !! nth k ids [] = None ->
        c' !! nth k ids [] =
        Some (mk_entry (nth k chunks []) (embedding_of (nth k chunks []))
                (nth k metadatas ∅)))
  /\ (forall id, ~ In id (pick [] ids ks) -> c' !! id = c !! id).
Proof.
  intros Hnd c'. unfold c', add_new. rewrite batch_positions.
  set (g := fun k : nat =>
         (nth k ids [], (embedding_of (nth k chunks []),
                         (nth k metadatas ∅, nth k chunks [])))).
  assert (Hfst : map fst (map g ks) = pick [] ids ks)
    by (unfold pick; now rewrite map_map).
  split; [| split].
  - intros id old Hold. now apply add_new_stored.
  - intros k Hk Hnew.
    exact (add_new_fresh (map g ks) c (g k) ltac:(now rewrite Hfst)
             (in_map g _ _ Hk) Hnew).
  - intros id Hnot. apply add_new_other. now rewrite Hfst.
Qed.

End StoreFacts.

(** C6. Whenever [get_embedding] yields the empty vector for the query
    (which is what a failure of the embedding service becomes), [search]
    returns, without raising, the result whose documents, metadatas and
    distances are all empty; the collection is not queried. *)
Theorem search_embedding_failure `{Services} (c : gmap text entry)
    (query : text) (n_results : Z) (filter_dict : option (gmap string value)) :
  get_embedding query = Ret [] ->
  search c query n_results filter_dict =
  Ret {| s_documents := []; s_metadatas := []; s_distances := [] |}.
Proof. intros Hq. unfold search. rewrite Hq. reflexivity. Qed.

(** Witness of [search_embedding_failure]: the service raises on the
    empty query. *)
Lemma search_embedding_failure_witness :
  @search picky_services small_collection [] 5 None = Ret empty_search.
Proof.
  apply (@search_embedding_failure picky_services).
  apply (@get_embedding_failure picky_services [] (Exception (lit "empty input"))).
  reflexivity.
Defined.

(** C9. For chunks, metadatas and ids of equal length, let [ks] be the
    positions whose embedding is not empty, in increasing order: [k] is in
    [ks] exactly when [get_embedding(chunks[k])] is not the empty vector.
    [add_documents] hands the store the chunks, embeddings, metadatas and
    ids at the positions [ks] (the same positions in all four lists) in
    one call of [collection.add]. The call returns [False] exactly when
    [ks] is empty or the store rejects the batch, as it does when an id
    occurs twice among the surviving ids; the collection is then
    unchanged. After a call that returns [True], every record that was
    stored before is still stored as it was, also under an id of the
    batch; the id of a surviving chunk that was not stored before leads to
    the record made of that chunk, its embedding and its metadata; and no
    other id has been touched. *)
Theorem add_documents_aligned `{Services} (c : gmap text entry)
    (chunks : list text) (metadatas : list (gmap string value))
    (ids : list text) :
  length metadatas = length chunks -> length ids = length chunks ->
  let ks := surviving chunks in
  let ids' := pick [] ids ks in
  let embeddings' := map embedding_of (pick [] chunks ks) in
  let metadatas' := pick ∅ metadatas ks in
  let chunks' := pick [] chunks ks in
  let rejected := store_raises c (CallAdd ids' embeddings' metadatas' chunks') in
  (forall k, In k ks <->
     (k < length chunks)%nat /\ get_embedding (nth k chunks []) <> Ret [])
  /\ add_documents c chunks metadatas ids =
     Ret (if truthy ks then
            if decide (NoDup ids') then
              match rejected with
              | Some _ => (false, c)
              | None => (true, add_new c ids' embeddings' metadatas' chunks')
              end
            else (false, c)
          else (false, c))
  /\ (forall b c', add_documents c chunks metadatas ids = Ret (b, c') ->
        (b = false <-> ks = [] \/ ~ NoDup ids' \/ is_Some rejected)
        /\ (b = false -> c' = c)
        /\ (b = true ->
             (forall id old, c !! id = Some old -> c' !! id = Some old)
             /\ (forall k, In k ks -> c !! nth k ids [] = None ->
                   c' !! nth k ids [] =
                   Some (mk_entry (nth k chunks [])
                           (embedding_of (nth k chunks []))
                           (nth k metadatas ∅)))
             /\ (forall id, ~ In id ids' -> c' !! id = c !! id))).
Proof.
  intros Hm Hi ks ids' embeddings' metadatas' chunks' rejected.
  pose proof (add_documents_positions c chunks metadatas ids Hm Hi) as Hrun.
  cbv zeta in Hrun. fold ks ids' embeddings' metadatas' chunks' rejected in Hrun.
  split; [apply surviving_spec |]. split; [exact Hrun |].
  intros b c' Hret. rewrite Hrun in Hret.
  destruct ks as [| k ks'] eqn:Hks; cbn [truthy] in Hret.
  - injection Hret as <- <-.
    split; [split; auto |]. split; [reflexivity | discriminate].
  - destruct (decide (NoDup ids')) as [Hnd | Hdup].
    + destruct rejected as [e |] eqn:Hrej; injection Hret as <- <-.
      * split; [| split; [reflexivity | discriminate]].
        split; [intros _; right; right; now eexists | reflexivity].
      * split; [| split; [discriminate |]].
        -- split; [discriminate |].
           intros [Hnil | [Hno | [e He]]];
             [discriminate | contradiction | discriminate].
        -- intros _. exact (add_new_positions c chunks metadatas ids _ Hnd).
    + injection Hret as <- <-.
      split; [| split; [reflexivity | discriminate]].
      split; [intros _; right; now left | reflexivity].
Qed.

(** Witness of [add_documents_aligned]: of three chunks the second (the
    empty text) gets no embedding; the first and the third are stored. *)
Lemma add_documents_aligned_witness :
  @add_documents picky_services ∅ [lit "alpha"; []; lit "beta"]
    [meta_of "a.pdf" 0; meta_of "a.pdf" 1; meta_of "a.pdf" 2]
    [lit "a_0"; lit "a_1"; lit "a_2"] =
  Ret (true,
       <[lit "a_2" := mk_entry (lit "beta") [4] (meta_of "a.pdf" 2)]>
         (<[lit "a_0" := mk_entry (lit "alpha") [5] (meta_of "a.pdf" 0)]> ∅)).
Proof.
  destruct (@add_documents_aligned picky_services ∅
              [lit "alpha"; []; lit "beta"]
              [meta_of "a.pdf" 0; meta_of "a.pdf" 1; meta_of "a.pdf" 2]
              [lit "a_0"; lit "a_1"; lit "a_2"] eq_refl eq_refl)
    as (_ & Hrun & _).
  rewrite Hrun. vm_compute. reflexivity.
Defined.

(** The surviving tuples are not upserted: a chunk that arrives under the
    id [a_0], which the collection holds already, is accepted with [True]
    and the collection stays as it was, with the old record under [a_0],
    where an upsert would have put the new one. *)
Lemma add_documents_keeps_stored :
  @add_documents picky_services small_collection [lit "omega"]
    [meta_of "z.pdf" 0] [lit "a_0"] = Ret (true, small_collection)
  /\ small_collection !! lit "a_0"
     = Some (mk_entry (lit "alpha") [5] (meta_of "a.pdf" 0))
  /\ upsert small_collection [lit "a_0"] [[5]] [meta_of "z.pdf" 0]
       [lit "omega"] !! lit "a_0"
     = Some (mk_entry (lit "omega") [5] (meta_of "z.pdf" 0)).
Proof.
  split; [vm_compute; reflexivity |].
  split; vm_compute; reflexivity.
Qed.

(** C10. [delete_document] never raises. It returns [True] exactly when
    at least one record has the document name, the store answers the
    lookup and the store accepts the deletion; the collection is then the
    old one without the records of that name. In every other case it
    returns [False] and leaves the collection as it is: whenever no record
    has the name, whatever the store does, and also when records have the
    name but the store rejects the lookup or the deletion. *)
Theorem delete_document_matching `{Services} (c : gmap text entry)
    (document_name : text) :
  (exists b c',
     delete_document c document_name = Ret (b, c')
     /\ (b = true ->
           c' = filter (fun kv => ~ field_is "document_name"
                                    (VStr document_name) (snd kv)) c
           /\ (exists id e, c !! id = Some e
                  /\ field_is "document_name" (VStr document_name) e)
           /\ store_raises c (CallGet "document_name" (VStr document_name))
                = None)
     /\ (b = false -> c' = c))
  /\ ((exists id e, c !! id = Some e
                   /\ field_is "document_name" (VStr document_name) e) ->
      store_raises c (CallGet "document_name" (VStr document_name)) = None ->
      store_raises c
        (CallDelete
           (map fst (map_to_list
                       (matching c "document_name" (VStr document_name)))))
        = None ->
      delete_document c document_name =
      Ret (true,
           filter (fun kv => ~ field_is "document_name" (VStr document_name)
                               (snd kv)) c))
  /\ (~ (exists id e, c !! id = Some e
                     /\ field_is "document_name" (VStr document_name) e) ->
      delete_document c document_name = Ret (false, c))
  /\ (is_Some (store_raises c (CallGet "document_name" (VStr document_name)))
      \/ is_Some
           (store_raises c
              (CallDelete
                 (map fst (map_to_list
                             (matching c "document_name"
                                (VStr document_name)))))) ->
      delete_document c document_name = Ret (false, c)).
Proof.
  unfold delete_document, collection_get, collection_delete, guarded.
  set (ids := map fst (map_to_list
                         (matching c "document_name" (VStr document_name)))).
  pose proof (matching_ids_empty c "document_name" (VStr document_name))
    as Hempty. fold ids in Hempty.
  destruct (store_raises c (CallGet _ _)) as [e |] eqn:Hget; exc_simpl.
  - split; [exists false, c; split; [reflexivity |];
            split; [discriminate | reflexivity] |].
    split; [intros _ Hno; discriminate |].
    split; reflexivity.
  - destruct (truthy ids) eqn:Hids; exc_simpl.
    + assert (Hfound : exists id e, c !! id = Some e
                /\ field_is "document_name" (VStr document_name) e).
      { unfold ids in Hids.
        destruct (map_to_list _) as [| [i e] l] eqn:Hl; [discriminate |].
        assert ((i, e) ∈ map_to_list
                  (matching c "document_name" (VStr document_name))) as Hin
          by (rewrite Hl; left).
        apply elem_of_map_to_list, map_lookup_filter_Some in Hin as [Hc Hf].
        now exists i, e. }
      destruct (store_raises c (CallDelete ids)) as [e |] eqn:Hdel; exc_simpl.
      * split; [exists false, c; split; [reflexivity |];
                split; [discriminate | reflexivity] |].
        split; [intros _ _ Hno; discriminate |].
        split; [intros Hno; contradiction | reflexivity].
      * unfold ids. rewrite delete_matching.
        split; [eexists true, _; split; [reflexivity |];
                split; [intros _; now repeat split | discriminate] |].
        split; [reflexivity |].
        split; [intros Hno; contradiction |].
        intros [[e He] | [e He]]; discriminate.
    + assert (Hno : ~ exists id e, c !! id = Some e
                /\ field_is "document_name" (VStr document_name) e)
        by (now apply Hempty).
      split; [exists false, c; split; [reflexivity |];
              split; [discriminate | reflexivity] |].
      split; [intros Hyes; contradiction |].
      split; reflexivity.
Qed.

(** Witness of [delete_document_matching]: deleting [a.pdf] from a
    collection that holds two of its chunks and one of [b.pdf]. *)
Lemma delete_document_matching_witness :
  @delete_document picky_services small_collection (lit "a.pdf") =
  Ret (true, <[lit "b_0" := mk_entry (lit "gamma") [5] (meta_of "b.pdf" 0)]> ∅).
Proof.
  destruct (@delete_document_matching picky_services small_collection
              (lit "a.pdf")) as (_ & Hyes & _).
  rewrite Hyes.
  - vm_compute. reflexivity.
  - exists (lit "a_0"), (mk_entry (lit "alpha") [5] (meta_of "a.pdf" 0)).
    split; vm_compute; reflexivity.
  - reflexivity.
  - reflexivity.
Defined.

(** Records of [a.pdf] are stored, but the store rejects the deletion:
    [delete_document] returns [False] and nothing is deleted. *)
Lemma delete_document_rejected :
  (exists id e, small_collection !! id = Some e
                /\ field_is "document_name" (VStr (lit "a.pdf")) e)
  /\ @delete_document readonly_services small_collection (lit "a.pdf")
     = Ret (false, small_collection).
Proof.
  split.
  - exists (lit "a_0"), (mk_entry (lit "alpha") [5] (meta_of "a.pdf" 0)).
    split; vm_compute; reflexivity.
  - vm_compute. reflexivity.
Qed.

(** [delete_document] returns a boolean on every collection and name,
    whatever the store does. *)
Lemma delete_document_total `{Services} (c : gmap text entry)
    (document_name : text) :
  exists b c', delete_document c document_name = Ret (b, c').
Proof.
  unfold delete_document, collection_get, collection_delete, guarded.
  destruct (store_raises c (CallGet _ _)); cbn; [now eexists _, _ |].
  destruct (truthy _); cbn; [| now eexists _, _].
  destruct (store_raises c (CallDelete _)); cbn; now eexists _, _.
Qed.

(** ** Uploads *)

Section UploadFacts.
Context `{Host}.

Lemma is_duplicate_spec (docs : list doc_info) (file_hash : text) :
  is_duplicate docs file_hash = true <->
  exists doc, In doc docs /\ d_hash doc = file_hash.
Proof.
  induction docs as [| doc docs IH]; cbn [is_duplicate].
  - split; [discriminate | intros (? & [] & _)].
  - destruct (decide (d_hash doc = file_hash)) as [Heq | Hne].
    + split; [| reflexivity]. intros _. exists doc. split; [now left | exact Heq].
    + rewrite IH. split.
      * intros (d & Hin & Hd). exists d. split; [now right | exact Hd].
      * intros (d & [-> | Hin] & Hd); [contradiction |]. now exists d.
Qed.

End UploadFacts.

(** C5. When the bytes of an upload hash to the digest of a tracked
    document, [save_uploaded_file] returns [(None, "Duplicate file
    detected")] and leaves the state as it was: the tracked documents are
    the same and no file has been written. *)
Theorem save_uploaded_file_duplicate `{Host} (st : state) (up : uploaded_file)
    (file_bytes : bytes) :
  u_read up = Ret file_bytes ->
  (exists doc, In doc (documents st) /\ d_hash doc = get_file_hash file_bytes) ->
  save_uploaded_file st up =
  Ret ((None, Some (lit "Duplicate file detected")), st).
Proof.
  intros Hread Hdup. apply is_duplicate_spec in Hdup.
  unfold save_uploaded_file. rewrite Hread. exc_simpl.
  rewrite Hdup. reflexivity.
Qed.

(** Witness of [save_uploaded_file_duplicate]: the same two bytes are
    uploaded again under another name. *)
Lemma save_uploaded_file_duplicate_witness :
  @save_uploaded_file plain_host
    {| documents := [hello_doc];
       files := <[lit "data/hello.txt" := hello_bytes]> ∅ |}
    {| u_name := lit "copy.txt"; u_type := lit "text/plain";
       u_read := Ret hello_bytes |} =
  Ret ((None, Some (lit "Duplicate file detected")),
       {| documents := [hello_doc];
          files := <[lit "data/hello.txt" := hello_bytes]> ∅ |}).
Proof.
  apply (@save_uploaded_file_duplicate plain_host _ _ hello_bytes).
  - reflexivity.
  - exists hello_doc. split; [now left | reflexivity].
Defined.

(** ** Extraction *)

Section ExtractFacts.
Context `{Libraries}.

Lemma read_pages_app (ts : list text) (rest : list (Exc text)) (page_num : Z)
    (st : pdf_locals) :
  read_pages (map Ret ts ++ rest) page_num st =
  read_pages rest (page_num + len ts) (after_pages ts page_num st).
Proof.
  revert page_num st. induction ts as [| t ts IH]; intros page_num st.
  - cbn. now rewrite Z.add_0_r.
  - cbn [map app read_pages after_pages]. rewrite IH. f_equal.
    unfold len. cbn [length]. lia.
Qed.

(** Pages whose text is extracted are all read. *)
Lemma read_pages_all (ts : list text) (page_num : Z) (st : pdf_locals) :
  read_pages (map Ret ts) page_num st = (after_pages ts page_num st, None).
Proof.
  rewrite <- (app_nil_r (map Ret ts)), read_pages_app. reflexivity.
Qed.

(** An exception on a page ends the loop with the pages read before it. *)
Lemma read_pages_raise (ts : list text) (e : exn) (rest : list (Exc text))
    (page_num : Z) (st : pdf_locals) :
  read_pages (map Ret ts ++ Raise e :: rest) page_num st =
  (after_pages ts page_num st, Some e).
Proof. rewrite read_pages_app. reflexivity. Qed.

(** [process_pdf] does not raise. *)
Lemma process_pdf_total (dp : DocumentProcessor) (file_path : text) :
  exists r, process_pdf dp file_path = Ret r.
Proof.
  unfold process_pdf. destruct (pdf_try dp file_path) as [st [e | [r |]]];
    eexists; reflexivity.
Qed.

(** [process_image] does not raise. *)
Lemma process_image_total (dp : DocumentProcessor) (file_path : text) :
  exists r, process_image dp file_path = Ret r.
Proof.
  unfold process_image. destruct (image_open file_path) as [e | img];
    exc_simpl; [eexists; reflexivity |].
  destruct (ocr_processor dp) as [ocr |]; [| eexists; reflexivity].
  destruct (ocr_process_image ocr file_path default_language) as [e | r];
    exc_simpl; [eexists; reflexivity |].
  destruct (decide _); eexists; reflexivity.
Qed.

(** The transcription of a page does not raise. *)
Lemma process_pdf_page_as_image_total (ocr : OCRProcessor) (pdf_path : text)
    (page_num : Z) :
  exists r, process_pdf_page_as_image ocr pdf_path page_num = Ret r.
Proof.
  unfold process_pdf_page_as_image.
  destruct (fitz_open pdf_path) as [e | n];
    exc_simpl; [eexists; reflexivity |].
  destruct (n <=? page_num); [eexists; reflexivity |].
  destruct (fitz_page_png pdf_path page_num) as [e | img];
    exc_simpl; [eexists; reflexivity |].
  unfold transcribe. exc_simpl.
  destruct (vision_create _ _ _); eexists; reflexivity.
Qed.

(** The loop of [process_scanned_pdf] keeps the pages that are
    transcribed, in order, and nothing of the others. *)
Lemma scan_pages_spec (ocr : OCRProcessor) (pdf_path : text) (count : nat)
    (page_num : Z) (all_text : list text) (pages_data : list page) :
  scan_pages ocr pdf_path count page_num all_text pages_data =
  Ret (all_text ++
         omap (fun k => page_marker k <$> transcribed ocr pdf_path k)
           (page_range count page_num),
       pages_data ++
         omap (fun k => page_record k <$> transcribed ocr pdf_path k)
           (page_range count page_num)).
Proof.
  revert page_num all_text pages_data.
  induction count as [| count IH]; intros page_num all_text pages_data.
  - cbn. now rewrite !app_nil_r.
  - destruct (process_pdf_page_as_image_total ocr pdf_path page_num) as [r Hr].
    assert (Ht : transcribed ocr pdf_path page_num =
                 if decide (o_status r = lit "success") then Some (o_text r)
                 else None)
      by (unfold transcribed; now rewrite Hr).
    cbn [scan_pages page_range omap list_omap]. rewrite Hr, Ht.
    exc_simpl.
    destruct (decide (o_status r = lit "success")); rewrite IH;
      cbn [fmap option_fmap option_map]; [| reflexivity].
    now rewrite <- !app_assoc.
Qed.

Lemma process_scanned_pdf_spec (ocr : OCRProcessor) (pdf_path : text)
    (max_pages n : Z) :
  fitz_open pdf_path = Ret n ->
  process_scanned_pdf ocr pdf_path max_pages =
  Ret {| o_text := join [newline; newline]
           (omap (fun k => page_marker k <$> transcribed ocr pdf_path k)
              (page_range (Z.to_nat (Z.min n max_pages)) 0));
         o_pages :=
           omap (fun k => page_record k <$> transcribed ocr pdf_path k)
             (page_range (Z.to_nat (Z.min n max_pages)) 0);
         o_status := lit "success"; o_error := None;
         o_method := Some (lit "gpt4_vision_ocr");
         o_num_pages := Some (Z.min n max_pages) |}.
Proof.
  intros Hopen. unfold process_scanned_pdf. rewrite Hopen.
  exc_simpl. rewrite scan_pages_spec. reflexivity.
Qed.

Lemma omap_all_none {A B : Type} (f : A -> option B) (l : list A) :
  Forall (fun x => f x = None) l -> omap f l = [].
Proof.
  induction 1 as [| x l Hx _ IH]; [reflexivity |].
  cbn [omap list_omap]. now rewrite Hx.
Qed.

End ExtractFacts.

Section DispatchFacts.
Context `{Libraries}.

Lemma after_pages_full_text (ts : list text) (page_num : Z) (st : pdf_locals) :
  full_text (after_pages ts page_num st) = full_text st ++ ts.
Proof.
  revert page_num st. induction ts as [| t ts IH]; intros page_num st.
  - cbn. now rewrite app_nil_r.
  - cbn [after_pages]. rewrite IH. cbn [full_text]. now rewrite <- app_assoc.
Qed.

Lemma after_pages_count (ts : list text) (page_num : Z) (st : pdf_locals) :
  len (pages (after_pages ts page_num st)) = len (pages st) + len ts.
Proof.
  revert page_num st. induction ts as [| t ts IH]; intros page_num st.
  - cbn [after_pages]. unfold len. cbn [length]. lia.
  - cbn [after_pages]. rewrite IH. cbn [pages]. unfold len.
    rewrite length_app. cbn [length]. lia.
Qed.

(** The result of the PDF extractor when it is left with the locals that
    follow the pages [ts]. *)
Lemma text_extraction_after (ts : list text) :
  text_extraction (after_pages ts 0 no_pages) =
  {| r_text := join [newline; newline] ts;
     r_pages := pages (after_pages ts 0 no_pages);
     r_metadata := PdfMeta (len ts) (lit "text_extraction") None;
     r_status := None; r_error := None |}.
Proof.
  unfold text_extraction. now rewrite after_pages_full_text, after_pages_count.
Qed.

(** An exception while the pages are read leaves [process_pdf] with the
    pages read before it. *)
Lemma process_pdf_partial (dp : DocumentProcessor) (file_path : text)
    (ts : list text) (e : exn) (rest : list (Exc text)) :
  pdf_reader file_path = Ret (map Ret ts ++ Raise e :: rest) ->
  process_pdf dp file_path = Ret (text_extraction (after_pages ts 0 no_pages)).
Proof.
  intros Hread. unfold process_pdf, pdf_try.
  now rewrite Hread, read_pages_raise.
Qed.

Lemma process_pdf_unreadable (dp : DocumentProcessor) (file_path : text)
    (e : exn) :
  pdf_reader file_path = Raise e ->
  process_pdf dp file_path = Ret (text_extraction no_pages).
Proof. intros Hread. unfold process_pdf, pdf_try. now rewrite Hread. Qed.

Lemma process_file_pdf (dp : DocumentProcessor) (file_path : text) :
  process_file dp file_path (lit "application/pdf") =
  catch (result ← process_pdf dp file_path; mret (set_status (lit "success") result))
        (fun e => mret (error_result e)).
Proof. reflexivity. Qed.

End DispatchFacts.

(** C7, as amended. When the extractor selected for the declared type
    raises to [process_file], the result has status ['error'], empty text
    and the message of the exception under ['error']; the Word and the
    spreadsheet extractor raise whenever their library cannot open the
    file. The PDF extractor catches the exceptions of its own reading: when
    the text of a page cannot be extracted, [process_file] returns status
    ['success'] with the text of the pages before it, and when the file
    cannot be read at all, status ['success'] with empty text. *)
Theorem process_file_extractor_exceptions `{Libraries}
    (dp : DocumentProcessor) (file_path : text) :
  (forall (file_type : text) (process : processor) (e : exn),
      supported_types file_type = Some process ->
      process dp file_path = Raise e ->
      process_file dp file_path file_type = Ret (error_result e))
  /\ (forall e : exn,
        docx_open file_path = Raise e ->
        process_file dp file_path (lit
          "application/vnd.openxmlformats-officedocument.wordprocessingml.document")
        = Ret (error_result e))
  /\ (forall e : exn,
        xlsx_open file_path = Raise e ->
        process_file dp file_path (lit
          "application/vnd.openxmlformats-officedocument.spreadsheetml.sheet")
        = Ret (error_result e))
  /\ (forall (ts : list text) (e : exn) (rest : list (Exc text)),
        pdf_reader file_path = Ret (map Ret ts ++ Raise e :: rest) ->
        process_file dp file_path (lit "application/pdf") =
        Ret {| r_text := join [newline; newline] ts;
               r_pages := pages (after_pages ts 0 no_pages);
               r_metadata := PdfMeta (len ts) (lit "text_extraction") None;
               r_status := Some (lit "success"); r_error := None |})
  /\ (forall e : exn,
        pdf_reader file_path = Raise e ->
        process_file dp file_path (lit "application/pdf") =
        Ret {| r_text := []; r_pages := [];
               r_metadata := PdfMeta 0 (lit "text_extraction") None;
               r_status := Some (lit "success"); r_error := None |}).
Proof.
  assert (Hraise : forall file_type process e,
      supported_types file_type = Some process ->
      process dp file_path = Raise e ->
      process_file dp file_path file_type = Ret (error_result e)).
  { intros file_type process e Hsup Hr. unfold process_file.
    rewrite Hsup, Hr. reflexivity. }
  split; [exact Hraise |]. split; [| split; [| split]].
  - intros e He. apply (Hraise _ process_docx); [reflexivity |].
    unfold process_docx. now rewrite He.
  - intros e He. apply (Hraise _ process_xlsx); [reflexivity |].
    unfold process_xlsx. now rewrite He.
  - intros ts e rest Hread.
    rewrite process_file_pdf, (process_pdf_partial dp _ ts e rest Hread).
    now rewrite text_extraction_after.
  - intros e Hread.
    now rewrite process_file_pdf, (process_pdf_unreadable dp _ e Hread).
Qed.

(** Witness of [process_file_extractor_exceptions]: a Word file that the
    library cannot open. *)
Lemma process_file_extractor_exceptions_witness :
  @process_file demo_libraries with_ocr (lit "notes.docx") (lit
    "application/vnd.openxmlformats-officedocument.wordprocessingml.document")
  = Ret {| r_text := []; r_pages := []; r_metadata := NoMeta;
           r_status := Some (lit "error");
           r_error := Some (lit "not a Word file") |}.
Proof.
  destruct (@process_file_extractor_exceptions demo_libraries with_ocr
              (lit "notes.docx")) as (_ & Hdocx & _).
  apply (Hdocx (Exception (lit "not a Word file"))). reflexivity.
Defined.

(** C7, as stated, fails on a PDF whose second page cannot be extracted:
    the extraction raises, and [process_file] returns status ['success']
    with the text of the first page alone and no ['error'] field. *)
Lemma process_file_partial_pdf :
  @pdf_reader demo_libraries (lit "broken.pdf") =
    Ret [Ret (lit "Hello"); Raise (Exception (lit "bad page"))]
  /\ @process_file demo_libraries without_ocr (lit "broken.pdf")
       (lit "application/pdf") =
     Ret {| r_text := lit "Hello";
            r_pages := [PdfPage 1 (lit "Hello") 5];
            r_metadata := PdfMeta 1 (lit "text_extraction") None;
            r_status := Some (lit "success"); r_error := None |}
  /\ @process_file demo_libraries without_ocr (lit "broken.pdf")
       (lit "application/pdf") <>
     Ret (error_result (Exception (lit "bad page"))).
Proof.
  split; [reflexivity |]. split; [reflexivity |].
  vm_compute. discriminate.
Qed.

(** C8, as amended. Let a PDF whose pages all yield their text fall
    under the OCR threshold, with an OCR processor present. When the
    document can be opened for rendering, [process_scanned_pdf] reports
    status ['success'] and keeps, in page order, the marker and text and
    the page record of exactly the pages whose transcription succeeds;
    [process_pdf] returns this OCR result with method ['ocr']. In
    particular, when the transcription of every page fails, [process_pdf]
    returns the empty OCR result (empty text, no pages, method ['ocr']).
    It returns the text of the direct extraction when the document cannot
    be opened for rendering, so that [process_scanned_pdf] reports status
    ['error']. *)
Theorem scanned_pdf_page_failures `{Libraries} (dp : DocumentProcessor)
    (ocr : OCRProcessor) (file_path : text) (ts : list text) :
  ocr_processor dp = Some ocr ->
  pdf_reader file_path = Ret (map Ret ts) ->
  looks_scanned (total_text_length (after_pages ts 0 no_pages)) (len ts) = true ->
  (forall n : Z,
     fitz_open file_path = Ret n ->
     let nums := page_range (Z.to_nat (Z.min n (Z.min (len ts) 20))) 0 in
     let kept_text :=
       omap (fun k => page_marker k <$> transcribed ocr file_path k) nums in
     let kept_pages :=
       omap (fun k => page_record k <$> transcribed ocr file_path k) nums in
     process_scanned_pdf ocr file_path (Z.min (len ts) 20) =
       Ret {| o_text := join [newline; newline] kept_text;
              o_pages := kept_pages;
              o_status := lit "success"; o_error := None;
              o_method := Some (lit "gpt4_vision_ocr");
              o_num_pages := Some (Z.min n (Z.min (len ts) 20)) |}
     /\ process_pdf dp file_path =
        Ret {| r_text := join [newline; newline] kept_text;
               r_pages := kept_pages;
               r_metadata := PdfMeta (len ts) (lit "ocr") (Some (len kept_pages));
               r_status := None; r_error := None |}
     /\ (Forall (fun k => transcribed ocr file_path k = None) nums ->
         process_pdf dp file_path =
         Ret {| r_text := []; r_pages := [];
                r_metadata := PdfMeta (len ts) (lit "ocr") (Some 0);
                r_status := None; r_error := None |}))
  /\ (forall e : exn,
        fitz_open file_path = Raise e ->
        process_pdf dp file_path =
        Ret {| r_text := join [newline; newline] ts;
               r_pages := pages (after_pages ts 0 no_pages);
               r_metadata := PdfMeta (len ts) (lit "text_extraction") None;
               r_status := None; r_error := None |}).
Proof.
  intros Hocr Hread Hscan.
  assert (Hlen : len (map (@Ret text) ts) = len ts)
    by (unfold len; now rewrite length_map).
  split.
  - intros n Hopen nums kept_text kept_pages.
    pose proof (process_scanned_pdf_spec ocr file_path (Z.min (len ts) 20) n Hopen)
      as Hspec.
    assert (Hpdf : process_pdf dp file_path =
        Ret {| r_text := join [newline; newline] kept_text;
               r_pages := kept_pages;
               r_metadata := PdfMeta (len ts) (lit "ocr") (Some (len kept_pages));
               r_status := None; r_error := None |}).
    { unfold process_pdf, pdf_try.
      rewrite Hread, read_pages_all, Hocr, Hlen, Hscan, Hspec. reflexivity. }
    split; [exact Hspec |]. split; [exact Hpdf |].
    intros Hall. rewrite Hpdf. unfold kept_text, kept_pages.
    rewrite !omap_all_none; [reflexivity | |];
      (eapply Forall_impl; [exact Hall |]); cbn beta; intros k ->; reflexivity.
  - intros e Hopen. unfold process_pdf, pdf_try.
    rewrite Hread, read_pages_all, Hocr, Hlen, Hscan.
    unfold process_scanned_pdf. rewrite Hopen.
    exc_simpl.
    destruct (decide (lit "error" = lit "success")) as [Heq | _];
      [discriminate Heq |].
    now rewrite text_extraction_after.
Qed.

(** Witness of [scanned_pdf_page_failures]: of the two pages of
    [scan.pdf] only the first is transcribed, and only it is kept. *)
Lemma scanned_pdf_page_failures_witness :
  @process_pdf demo_libraries with_ocr (lit "scan.pdf") =
  Ret {| r_text := lit "[Page 1]" ++ [newline] ++ lit "A";
         r_pages := [PdfPage 1 (lit "A") 1];
         r_metadata := PdfMeta 2 (lit "ocr") (Some 1);
         r_status := None; r_error := None |}.
Proof.
  destruct (@scanned_pdf_page_failures demo_libraries with_ocr
              default_processor (lit "scan.pdf") [lit "scan"; []]
              eq_refl eq_refl eq_refl) as [Hopen _].
  destruct (Hopen 2 eq_refl) as (_ & Hpdf & _).
  rewrite Hpdf. reflexivity.
Defined.

(** C8, as stated, fails on a scanned PDF of one page whose transcription
    fails: the transcription of every page fails, the direct extraction
    has the text [scan], and [process_pdf] returns the empty OCR result
    with method ['ocr'], not the text of the direct extraction. *)
Lemma scanned_pdf_all_pages_fail :
  @transcribed demo_libraries default_processor (lit "blank.pdf") 0 = None
  /\ @pdf_reader demo_libraries (lit "blank.pdf") = Ret [Ret (lit "scan")]
  /\ @process_scanned_pdf demo_libraries default_processor (lit "blank.pdf") 1 =
     Ret {| o_text := []; o_pages := []; o_status := lit "success";
            o_error := None; o_method := Some (lit "gpt4_vision_ocr");
            o_num_pages := Some 1 |}
  /\ @process_pdf demo_libraries with_ocr (lit "blank.pdf") =
     Ret {| r_text := []; r_pages := [];
            r_metadata := PdfMeta 1 (lit "ocr") (Some 0);
            r_status := None; r_error := None |}
  /\ @process_pdf demo_libraries with_ocr (lit "blank.pdf") <>
     Ret (text_extraction (after_pages [lit "scan"] 0 no_pages)).
Proof.
  split; [reflexivity |]. split; [reflexivity |]. split; [reflexivity |].
  split; [reflexivity |]. vm_compute. discriminate.
Qed.

(** * Further properties *)

(** ** The chunker: size, content and order of the chunks *)

Section ChunkBounds.

(** A slice is no longer than the distance of its bounds. *)
Lemma slice_length_le {A : Type} (l : list A) (i j : Z) :
  i <= j -> len (slice l i j) <= j - i.
Proof.
  intros Hij. unfold slice, len, clamp_index.
  rewrite length_firstn, length_skipn.
  destruct (Z.ltb_spec i 0), (Z.ltb_spec j 0); first [lia | exfalso; lia].
Qed.

Lemma startswith_length (sub s : text) :
  startswith sub s = true -> len sub <= len s.
Proof.
  revert s. induction sub as [| c sub IH]; intros s.
  - intros _. unfold len. cbn [length]. lia.
  - destruct s as [| d s]; [discriminate |].
    cbn [startswith]. intros [_ Hs]%andb_prop. apply IH in Hs.
    unfold len in *. cbn [length]. lia.
Qed.

(** What [rfind_from] returns is [last] or an index at which [sub] fits. *)
Lemma rfind_from_range (sub s : text) (i last : Z) :
  rfind_from s sub i last = last \/
  (i <= rfind_from s sub i last /\
   rfind_from s sub i last + len sub <= i + len s).
Proof.
  revert i last. induction s as [| c s IH]; intros i last.
  - cbn [rfind_from]. destruct (startswith sub []) eqn:Hs; [| now left].
    right. apply startswith_length in Hs. lia.
  - cbn [rfind_from].
    destruct (IH (i + 1) (if startswith sub (c :: s) then i else last))
      as [Heq | [Hlo Hhi]].
    + rewrite Heq. destruct (startswith sub (c :: s)) eqn:Hs; [| now left].
      right. apply startswith_length in Hs. lia.
    + right. unfold len in *. cbn [length]. lia.
Qed.

Lemma rfind_range (sub s : text) :
  rfind s sub <> -1 -> 0 <= rfind s sub /\ rfind s sub + len sub <= len s.
Proof.
  intros Hne. unfold rfind in *.
  destruct (rfind_from_range sub s 0 (-1)) as [Heq | H]; [contradiction | lia].
Qed.

Lemma break_at_boundary_range (t : text) (start end_ : Z) (puncts : list text) :
  start <= end_ -> start <= break_at_boundary t start end_ puncts <= end_.
Proof.
  intros Hle. induction puncts as [| punct rest IH]; cbn [break_at_boundary];
    [lia |].
  destruct (Z.eqb_spec (rfind (slice t start end_) punct) (-1)) as [_ | Hne];
    cbn [negb]; [exact IH |].
  apply rfind_range in Hne.
  pose proof (slice_length_le t start end_ Hle). unfold len in *. lia.
Qed.

(** A window is at most [chunk_size] long and does not end before it
    starts. *)
Lemma window_end_range (t : text) (size start : Z) :
  0 <= size -> start <= window_end t size start <= start + size.
Proof.
  intros Hsize. unfold window_end.
  destruct (start + size <? len t); [| lia].
  apply break_at_boundary_range. lia.
Qed.

Lemma lstrip_length (s : text) : len (lstrip s) <= len s.
Proof.
  induction s as [| c s IH]; [reflexivity |].
  cbn [lstrip]. destruct (isspace c); [| lia].
  unfold len in *. cbn [length]. lia.
Qed.

Lemma strip_length (s : text) : len (strip s) <= len s.
Proof.
  unfold strip, rstrip. pose proof (lstrip_length s).
  pose proof (lstrip_length (rev (lstrip s))).
  unfold len in *. rewrite length_rev in *. lia.
Qed.

Lemma chunk_loop_forall (P : text -> Prop) (t : text) (size overlap : Z) :
  (forall start, strip (slice t start (window_end t size start)) <> [] ->
                 P (strip (slice t start (window_end t size start)))) ->
  forall (fuel : nat) (start : Z) (chunks r : list text),
    Forall P chunks ->
    chunk_loop fuel t size overlap start chunks = Some r ->
    Forall P r.
Proof.
  intros Hwin fuel. induction fuel as [| fuel IH]; intros start chunks r Hall;
    [discriminate |].
  rewrite chunk_loop_step. destruct (start <? len t).
  - apply IH. unfold append_chunk.
    destruct (strip (slice t start (window_end t size start))) eqn:Hs;
      [exact Hall |].
    apply Forall_app. split; [exact Hall |]. constructor; [| constructor].
    rewrite <- Hs. apply Hwin. now rewrite Hs.
  - now intros [= <-].
Qed.

(** Every chunk has the property [P] as soon as every trimmed window that
    is not empty has it. *)
Lemma chunk_text_forall (P : text -> Prop) (t : text) (size overlap : Z)
    (r : list text) :
  (forall start, strip (slice t start (window_end t size start)) <> [] ->
                 P (strip (slice t start (window_end t size start)))) ->
  returns t size overlap r -> Forall P r.
Proof.
  intros Hwin [fuel Hr]. destruct t as [| c t].
  - injection Hr as <-. constructor.
  - apply (chunk_loop_forall P (c :: t) size overlap Hwin fuel 0 [] r);
      [constructor | exact Hr].
Qed.

Lemma lstrip_suffix (s : text) : exists pre, s = pre ++ lstrip s.
Proof.
  induction s as [| c s [pre IH]]; [now exists [] |].
  cbn [lstrip]. destruct (isspace c); [| now exists []].
  exists (c :: pre). cbn. now rewrite <- IH.
Qed.

Lemma rstrip_prefix (s : text) : exists post, s = rstrip s ++ post.
Proof.
  unfold rstrip. destruct (lstrip_suffix (rev s)) as [pre Hpre].
  exists (rev pre). rewrite <- rev_app_distr, <- Hpre. now rewrite rev_involutive.
Qed.

(** A trimmed slice is a contiguous part of the text. *)
Lemma strip_slice_infix (t : text) (i j : Z) :
  exists pre post, t = pre ++ strip (slice t i j) ++ post.
Proof.
  unfold strip.
  destruct (rstrip_prefix (lstrip (slice t i j))) as [post Hpost].
  destruct (lstrip_suffix (slice t i j)) as [pre Hpre].
  unfold slice in *.
  set (a := Z.to_nat (clamp_index (len t) i)) in *.
  set (k := Z.to_nat (clamp_index (len t) j - clamp_index (len t) i)) in *.
  exists (firstn a t ++ pre), (post ++ skipn k (skipn a t)).
  rewrite <- (firstn_skipn a t) at 1. rewrite <- app_assoc. f_equal.
  rewrite <- (firstn_skipn k (skipn a t)) at 1.
  rewrite Hpre at 1. rewrite Hpost at 1. now rewrite <- !app_assoc.
Qed.

Lemma lstrip_blank (s : text) :
  Forall (fun c => isspace c = true) s -> lstrip s = [].
Proof.
  induction 1 as [| c s Hc _ IH]; [reflexivity |]. cbn. now rewrite Hc.
Qed.

Lemma strip_blank (s : text) :
  Forall (fun c => isspace c = true) s -> strip s = [].
Proof. intros Hs. unfold strip. now rewrite lstrip_blank. Qed.

Lemma slice_forall {A : Type} (P : A -> Prop) (l : list A) (i j : Z) :
  Forall P l -> Forall P (slice l i j).
Proof. intros Hl. unfold slice. now apply Forall_take, Forall_drop. Qed.

End ChunkBounds.

(** X4. With a non-negative [chunk_size], no chunk that [chunk_text]
    returns is longer than [chunk_size] characters, whatever the overlap
    and wherever the boundary markers are. *)
Theorem chunk_text_chunk_size (t : text) (size overlap : Z) (r : list text) :
  0 <= size -> returns t size overlap r -> Forall (fun c => len c <= size) r.
Proof.
  intros Hsize. apply chunk_text_forall. intros start _.
  pose proof (strip_length (slice t start (window_end t size start))).
  pose proof (window_end_range t size start Hsize) as [Hlo Hhi].
  pose proof (slice_length_le t start (window_end t size start) Hlo). lia.
Qed.

Lemma chunk_text_chunk_size_witness :
  Forall (fun c => len c <= 1000)
    [repeat letter 1000; repeat letter 1000; repeat letter 800].
Proof.
  apply (chunk_text_chunk_size trailing_blanks 1000 200); [lia |].
  exists 5%nat. vm_compute. reflexivity.
Defined.

(** X5. Every chunk that [chunk_text] returns is a contiguous part of the
    input text: the text is some prefix, then the chunk, then some suffix. *)
Theorem chunk_text_verbatim (t : text) (size overlap : Z) (r : list text) :
  returns t size overlap r ->
  Forall (fun c => exists pre post, t = pre ++ c ++ post) r.
Proof. apply chunk_text_forall. intros start _. apply strip_slice_infix. Qed.

Lemma chunk_text_verbatim_witness :
  Forall (fun c => exists pre post, early_boundary = pre ++ c ++ post)
    [lit "."; repeat letter 399].
Proof.
  apply (chunk_text_verbatim early_boundary 1000 200).
  exists 4%nat. vm_compute. reflexivity.
Defined.

(** X6. A text that consists of whitespace only gives no chunk: whenever
    [chunk_text] returns on it, it returns the empty list. *)
Theorem chunk_text_blank (t : text) (size overlap : Z) (r : list text) :
  Forall (fun c => isspace c = true) t ->
  returns t size overlap r -> r = [].
Proof.
  intros Hblank Hr.
  assert (Hnone : Forall (fun _ : text => False) r).
  { apply (chunk_text_forall (fun _ : text => False) t size overlap r);
      [| exact Hr].
    intros start Hne. apply Hne, strip_blank, slice_forall, Hblank. }
  destruct r; [reflexivity | now inversion Hnone].
Qed.

Lemma chunk_text_blank_witness :
  returns (repeat blank 1500) 1000 200 [] /\ @nil text = [].
Proof.
  assert (Hr : returns (repeat blank 1500) 1000 200 [])
    by (exists 3%nat; vm_compute; reflexivity).
  split; [exact Hr |].
  apply (chunk_text_blank (repeat blank 1500) 1000 200 []); [| exact Hr].
  apply List.Forall_forall. intros c Hc. apply repeat_spec in Hc. now subst c.
Defined.

Lemma chunk_text_trimmed_witness :
  Forall (fun c => c <> [] /\ strip c = c)
    [repeat letter 1000; repeat letter 1000; repeat letter 800].
Proof.
  apply (chunk_text_trimmed trailing_blanks 1000 200).
  exists 5%nat. vm_compute. reflexivity.
Defined.

Lemma chunk_windows_cover_witness :
  covered letters_2500 windows_2500 2499 = true.
Proof.
  apply (chunk_windows_cover 5 letters_2500 1000 200 2499 windows_2500).
  - lia.
  - vm_compute. reflexivity.
  - unfold windows_2500. repeat constructor; cbn; lia.
  - split; [lia | vm_compute; reflexivity].
Defined.

Lemma chunk_text_terminates_no_boundary_witness :
  exists r, returns letters_2500 1000 200 r.
Proof.
  apply (chunk_text_terminates_no_boundary letters_2500 1000 200).
  - lia.
  - vm_compute. reflexivity.
Defined.

(** ** The extractors: dispatch, status and fallbacks *)

Section DispatchTotal.
Context `{Libraries}.

(** The six declared types of [supported_types]. *)
Lemma supported_types_none (file_type : text) :
  supported_types file_type = None <->
  ~ In file_type
      [lit "application/pdf";
       lit "application/vnd.openxmlformats-officedocument.wordprocessingml.document";
       lit "application/vnd.openxmlformats-officedocument.spreadsheetml.sheet";
       lit "image/png"; lit "image/jpeg"; lit "image/jpg"].
Proof.
  unfold supported_types. cbn [In].
  repeat (destruct (decide _) as [-> | ?]; [split; [discriminate | tauto] |]).
  split; [| reflexivity]. intros _ Hin.
  repeat (destruct Hin as [Heq | Hin]; [congruence |]). exact Hin.
Qed.

Lemma process_file_status (dp : DocumentProcessor) (file_path file_type : text) :
  exists r,
    process_file dp file_path file_type = Ret r
    /\ (r_status r = Some (lit "unsupported_type")
          /\ supported_types file_type = None
        \/ r_status r = Some (lit "success")
        \/ r_status r = Some (lit "error")).
Proof.
  unfold process_file. destruct (supported_types file_type) as [process |].
  - destruct (process dp file_path) as [e | r]; exc_simpl.
    + eexists. split; [reflexivity |]. right. now right.
    + eexists. split; [reflexivity |]. right. now left.
  - exc_simpl. eexists. split; [reflexivity |]. now left.
Qed.

End DispatchTotal.

(** X7. [process_file] never raises. Its result always carries a status,
    one of ['success'], ['unsupported_type'] and ['error']; the status is
    ['unsupported_type'] exactly when the declared type is none of the six
    supported ones, and then the text is empty and the ['error'] field is
    ["Unsupported file type: "] followed by the type. *)
Theorem process_file_outcomes `{Libraries} (dp : DocumentProcessor)
    (file_path file_type : text) :
  let supported :=
    [lit "application/pdf";
     lit "application/vnd.openxmlformats-officedocument.wordprocessingml.document";
     lit "application/vnd.openxmlformats-officedocument.spreadsheetml.sheet";
     lit "image/png"; lit "image/jpeg"; lit "image/jpg"] in
  exists r,
    process_file dp file_path file_type = Ret r
    /\ (r_status r = Some (lit "success")
        \/ r_status r = Some (lit "unsupported_type")
        \/ r_status r = Some (lit "error"))
    /\ (r_status r = Some (lit "unsupported_type") <-> ~ In file_type supported)
    /\ (~ In file_type supported ->
        r = {| r_text := []; r_pages := []; r_metadata := NoMeta;
               r_status := Some (lit "unsupported_type");
               r_error := Some (lit "Unsupported file type: " ++ file_type) |}).
Proof.
  intros supported.
  destruct (process_file_status dp file_path file_type) as (r & Hr & Hst).
  exists r. split; [exact Hr |].
  destruct Hst as [[Hu Hnone] | Hother].
  - split; [tauto |]. split.
    + split; [intros _; now apply supported_types_none | intros _; exact Hu].
    + intros _. unfold process_file in Hr. rewrite Hnone in Hr.
      now injection Hr as <-.
  - assert (Hsome : supported_types file_type <> None).
    { intros Hnone. unfold process_file in Hr. rewrite Hnone in Hr.
      injection Hr as <-. cbn [r_status] in Hother.
      destruct Hother as [Heq | Heq]; vm_compute in Heq; discriminate Heq. }
    rewrite supported_types_none in Hsome.
    split; [tauto |]. split.
    + split; [| tauto]. intros Hu. rewrite Hu in Hother.
      destruct Hother as [Heq | Heq]; vm_compute in Heq; discriminate Heq.
    + tauto.
Qed.

(** X8. For the three image types [process_file] reports status
    ['success'] whatever happens: when the image cannot be opened, the
    result has status ['success'], empty text, no pages, and the message of
    the exception under ['error']; when it opens and there is no OCR
    processor, the text is the placeholder
    ["[Image file - OCR not available]"]. *)
Theorem process_file_image_success `{Libraries} (dp : DocumentProcessor)
    (file_path file_type : text) :
  In file_type [lit "image/png"; lit "image/jpeg"; lit "image/jpg"] ->
  (exists r, process_file dp file_path file_type = Ret r
             /\ r_status r = Some (lit "success"))
  /\ (forall e, image_open file_path = Raise e ->
        process_file dp file_path file_type =
        Ret {| r_text := []; r_pages := []; r_metadata := NoMeta;
               r_status := Some (lit "success");
               r_error := Some (str_exn e) |})
  /\ (forall img, image_open file_path = Ret img -> ocr_processor dp = None ->
        process_file dp file_path file_type =
        Ret {| r_text := lit "[Image file - OCR not available]";
               r_pages := [ImagePage (img_size img) (img_format img)
                             (img_mode img) None];
               r_metadata := ImageMeta (fst (img_size img)) (snd (img_size img))
                               (img_format img) None;
               r_status := Some (lit "success"); r_error := None |}).
Proof.
  intros Hin.
  assert (Hsup : supported_types file_type = Some process_image).
  { cbn [In] in Hin. destruct Hin as [<- | [<- | [<- | []]]]; reflexivity. }
  unfold process_file. rewrite Hsup. split; [| split].
  - destruct (process_image_total dp file_path) as [r ->]. exc_simpl.
    eexists. split; reflexivity.
  - intros e He. unfold process_image. rewrite He. reflexivity.
  - intros img Himg Hocr. unfold process_image. rewrite Himg, Hocr. reflexivity.
Qed.

Lemma process_file_image_success_witness :
  @process_file demo_libraries with_ocr (lit "photo.png") (lit "image/png") =
  Ret {| r_text := []; r_pages := []; r_metadata := NoMeta;
         r_status := Some (lit "success");
         r_error := Some (lit "cannot identify image file") |}.
Proof.
  destruct (@process_file_image_success demo_libraries with_ocr
              (lit "photo.png") (lit "image/png")) as (_ & Hfail & _).
  - now left.
  - apply (Hfail (Exception (lit "cannot identify image file"))). reflexivity.
Defined.

(** X9. OCR is used for a PDF only when an OCR processor is present and
    the average falls below the threshold. For a PDF whose pages all yield
    their text, if there is no OCR processor or the stripped text has at
    least 30 characters per page on average, [process_pdf] returns the
    direct extraction: the page texts joined by blank lines, one record per
    page, method ['text_extraction']. *)
Theorem process_pdf_direct `{Libraries} (dp : DocumentProcessor)
    (file_path : text) (ts : list text) :
  pdf_reader file_path = Ret (map Ret ts) ->
  ocr_processor dp = None
  \/ looks_scanned (total_text_length (after_pages ts 0 no_pages)) (len ts) = false ->
  process_pdf dp file_path =
  Ret {| r_text := join [newline; newline] ts;
         r_pages := pages (after_pages ts 0 no_pages);
         r_metadata := PdfMeta (len ts) (lit "text_extraction") None;
         r_status := None; r_error := None |}
  /\ len (pages (after_pages ts 0 no_pages)) = len ts.
Proof.
  intros Hread Hdirect.
  assert (Hlen : len (map (@Ret text) ts) = len ts)
    by (unfold len; now rewrite length_map).
  split; [| now rewrite after_pages_count].
  unfold process_pdf, pdf_try. rewrite Hread, read_pages_all, Hlen.
  rewrite <- text_extraction_after.
  destruct (ocr_processor dp) as [ocr |]; [| reflexivity].
  destruct Hdirect as [Hnone | Hscan]; [discriminate |]. now rewrite Hscan.
Qed.

Lemma process_pdf_direct_witness :
  @process_pdf demo_libraries without_ocr (lit "blank.pdf") =
  Ret {| r_text := lit "scan"; r_pages := [PdfPage 1 (lit "scan") 4];
         r_metadata := PdfMeta 1 (lit "text_extraction") None;
         r_status := None; r_error := None |}.
Proof.
  destruct (@process_pdf_direct demo_libraries without_ocr (lit "blank.pdf")
              [lit "scan"] eq_refl (or_introl eq_refl)) as [Hpdf _].
  rewrite Hpdf. reflexivity.
Defined.

Section OcrCap.
Context `{Libraries}.

Lemma page_range_length (count : nat) (page_num : Z) :
  length (page_range count page_num) = count.
Proof.
  revert page_num. induction count as [| count IH]; intros page_num;
    [reflexivity |]. cbn [page_range length]. now rewrite IH.
Qed.

Lemma omap_length_le {A B : Type} (f : A -> option B) (l : list A) :
  (length (omap f l) <= length l)%nat.
Proof.
  induction l as [| x l IH]; [reflexivity |].
  cbn [omap list_omap]. destruct (f x); cbn [length]; lia.
Qed.

(** [process_scanned_pdf] keeps at most [max_pages] pages. *)
Lemma process_scanned_pdf_cap (ocr : OCRProcessor) (pdf_path : text)
    (max_pages : Z) (r : ocr_result) :
  process_scanned_pdf ocr pdf_path max_pages = Ret r ->
  len (o_pages r) <= Z.max 0 max_pages.
Proof.
  destruct (fitz_open pdf_path) as [e | n] eqn:Hopen.
  - unfold process_scanned_pdf. rewrite Hopen. exc_simpl.
    intros [= <-]. cbn [o_pages]. unfold len. cbn [length]. lia.
  - rewrite (process_scanned_pdf_spec ocr pdf_path max_pages n Hopen).
    intros [= <-]. cbn [o_pages]. unfold len.
    pose proof (omap_length_le
      (fun k => page_record k <$> transcribed ocr pdf_path k)
      (page_range (Z.to_nat (Z.min n max_pages)) 0)) as Hle.
    rewrite page_range_length in Hle. lia.
Qed.

End OcrCap.

(** X10. Whatever the PDF, a result of [process_pdf] with method ['ocr']
    holds at most 20 pages, and its ['ocr_pages'] entry is the number of
    these pages. *)
Theorem process_pdf_ocr_cap `{Libraries} (dp : DocumentProcessor)
    (file_path : text) (r : result) (num_pages : Z) (ocr_pages : option Z) :
  process_pdf dp file_path = Ret r ->
  r_metadata r = PdfMeta num_pages (lit "ocr") ocr_pages ->
  len (r_pages r) <= 20 /\ ocr_pages = Some (len (r_pages r)).
Proof.
  unfold process_pdf, pdf_try.
  assert (Hdirect : forall st,
    r_metadata (text_extraction st) = PdfMeta num_pages (lit "ocr") ocr_pages ->
    len (r_pages (text_extraction st)) <= 20 /\
    ocr_pages = Some (len (r_pages (text_extraction st)))).
  { intros st Hm. cbn [text_extraction r_metadata] in Hm.
    injection Hm as _ Hm _. vm_compute in Hm. discriminate Hm. }
  destruct (pdf_reader file_path) as [e | ps];
    [intros [= <-]; apply Hdirect |].
  destruct (read_pages ps 0 no_pages) as [st [e |]];
    [intros [= <-]; apply Hdirect |].
  destruct (ocr_processor dp) as [ocr |]; [| intros [= <-]; apply Hdirect].
  destruct (looks_scanned _ _); [| intros [= <-]; apply Hdirect].
  destruct (process_scanned_pdf ocr file_path (Z.min (len ps) 20))
    as [e | o] eqn:Hocr; exc_simpl; [intros [= <-]; apply Hdirect |].
  destruct (decide (o_status o = lit "success")); exc_simpl;
    [| intros [= <-]; apply Hdirect].
  intros [= <-]. cbn [r_metadata r_pages]. intros [= _ <-].
  split; [| reflexivity].
  apply process_scanned_pdf_cap in Hocr. unfold len in *. lia.
Qed.

Lemma process_pdf_ocr_cap_witness :
  len [PdfPage 1 (lit "A") 1] <= 20 /\ Some 1 = Some (len [PdfPage 1 (lit "A") 1]).
Proof.
  apply (@process_pdf_ocr_cap demo_libraries with_ocr (lit "scan.pdf")
           {| r_text := lit "[Page 1]" ++ [newline] ++ lit "A";
              r_pages := [PdfPage 1 (lit "A") 1];
              r_metadata := PdfMeta 2 (lit "ocr") (Some 1);
              r_status := None; r_error := None |} 2 (Some 1));
    reflexivity.
Defined.

Section EmptyContent.
Context `{Libraries}.

Lemma filter_none {A : Type} (f : A -> bool) (l : list A) :
  Forall (fun x => f x = false) l -> List.filter f l = [].
Proof.
  induction 1 as [| x l Hx _ IH]; [reflexivity |]. cbn. now rewrite Hx.
Qed.

(** A row whose cells are all [None] or empty contributes no line. *)
Lemma sheet_rows_blank (rows : list (list (option text))) :
  Forall (Forall (fun cell => default [] cell = [])) rows ->
  snd (sheet_rows rows) = [].
Proof.
  intros Hrows. unfold sheet_rows. cbn [snd]. apply filter_none.
  apply Forall_map, Forall_map.
  eapply Forall_impl; [exact Hrows |]. cbn beta. intros row Hrow.
  rewrite filter_none; [reflexivity |].
  apply Forall_map. eapply Forall_impl; [exact Hrow |].
  cbn beta. now intros cell ->.
Qed.

End EmptyContent.

(** X11. The text of a Word document comes from its paragraphs only: when
    every paragraph is blank, [process_docx] returns empty text and no
    page record, whatever the tables hold; the tables are reported in the
    metadata. *)
Theorem process_docx_blank `{Libraries} (dp : DocumentProcessor)
    (file_path : text) (doc : docx_document) :
  docx_open file_path = Ret doc ->
  Forall (fun para => strip (fst para) = []) (paragraphs doc) ->
  process_docx dp file_path =
  Ret {| r_text := []; r_pages := [];
         r_metadata := DocxMeta 0 (len (tables doc)) (tables doc);
         r_status := None; r_error := None |}.
Proof.
  intros Hopen Hblank. unfold process_docx. rewrite Hopen. exc_simpl.
  rewrite filter_none; [reflexivity |].
  eapply Forall_impl; [exact Hblank |]. cbn beta. intros para Hp.
  unfold nonblank. now rewrite Hp.
Qed.

(** X12. A workbook whose cells are all [None] or the empty string gives
    empty text: [process_xlsx] returns the empty string as text, and still
    one page record per sheet and the sheet names in the metadata. *)
Theorem process_xlsx_blank `{Libraries} (dp : DocumentProcessor)
    (file_path : text) (wb : workbook) :
  xlsx_open file_path = Ret wb ->
  Forall (fun sheet => Forall (Forall (fun cell => default [] cell = []))
                         (snd sheet)) wb ->
  exists r,
    process_xlsx dp file_path = Ret r
    /\ r_text r = []
    /\ len (r_pages r) = len wb
    /\ r_metadata r = XlsxMeta (len wb) (map fst wb).
Proof.
  intros Hopen Hblank. unfold process_xlsx. rewrite Hopen. exc_simpl.
  eexists. split; [reflexivity |]. cbn [r_text r_pages r_metadata].
  split; [| split].
  - replace (concat _) with (@nil text); [reflexivity |].
    symmetry. clear Hopen.
    induction Hblank as [| sheet wb' Hs _ IH]; [reflexivity |].
    cbn [map concat fst snd]. rewrite IH, app_nil_r.
    now apply sheet_rows_blank.
  - unfold len. now rewrite !length_map.
  - unfold len. rewrite !length_map, map_map. reflexivity.
Qed.

Lemma process_docx_blank_witness :
  @process_docx office_libraries without_ocr (lit "tables.docx") =
  Ret {| r_text := []; r_pages := [];
         r_metadata := DocxMeta 0 1 [[[lit "a"; lit "b"]]];
         r_status := None; r_error := None |}.
Proof.
  apply (@process_docx_blank office_libraries without_ocr (lit "tables.docx")
           {| paragraphs := [(lit "  ", lit "Normal"); ([], lit "Normal")];
              tables := [[[lit "a"; lit "b"]]] |}).
  - reflexivity.
  - repeat constructor.
Defined.

Lemma process_xlsx_blank_witness :
  exists r,
    @process_xlsx office_libraries without_ocr (lit "empty.xlsx") = Ret r
    /\ r_text r = []
    /\ len (r_pages r) = 1
    /\ r_metadata r = XlsxMeta 1 [lit "Sheet1"].
Proof.
  apply (@process_xlsx_blank office_libraries without_ocr (lit "empty.xlsx")
           [(lit "Sheet1", [[None; Some []]; [None]])]).
  - reflexivity.
  - repeat constructor.
Defined.

(** ** The vector store: frame, round trip and repeated deletion *)

Section StoreMore.
Context `{Services}.

(** The ids of the rows of [valid_data] are among the ids given. *)
Lemma valid_data_ids (chunks : list text) (embeddings : list vector)
    (metadatas : list (gmap string value)) (ids : list text) (r : row) :
  In r (valid_data chunks embeddings metadatas ids) -> In (snd r) ids.
Proof.
  unfold valid_data, zip4. rewrite filter_In, in_map_iff.
  intros [(x & <- & Hx) _]. cbn [snd]. destruct x as [a i].
  apply list_elem_of_In. apply list_elem_of_In in Hx.
  eapply elem_of_zip_r. exact Hx.
Qed.

Lemma zip_map_fst {A B : Type} (l : list A) (k : list B) :
  incl (map fst (zip l k)) l.
Proof.
  revert k. induction l as [| a l IH]; intros k x; [now cbn |].
  destruct k as [| b k]; [now cbn |].
  cbn [zip zip_with map fst]. intros [<- | Hin]; [now left |].
  right. exact (IH k x Hin).
Qed.

(** What [delete_document] does when the store answers. *)
Lemma delete_document_run (c : gmap text entry) (document_name : text) :
  store_raises c (CallGet "document_name" (VStr document_name)) = None ->
  (forall ids, store_raises c (CallDelete ids) = None) ->
  delete_document c document_name =
  Ret (if truthy (map fst (map_to_list
                    (matching c "document_name" (VStr document_name))))
       then (true,
             filter (fun kv => ~ field_is "document_name" (VStr document_name)
                                 (snd kv)) c)
       else (false, c)).
Proof.
  intros Hget Hdel. unfold delete_document, collection_get, guarded.
  rewrite Hget. exc_simpl. destruct (truthy _); [| reflexivity].
  unfold collection_delete, guarded. rewrite Hdel. exc_simpl.
  now rewrite delete_matching.
Qed.

End StoreMore.

(** X13. [add_documents] never touches a record stored under an id that
    is not among the ids it is given: whatever it returns, such an id has
    the same record (or none) before and after the call. *)
Theorem add_documents_frame `{Services} (c c' : gmap text entry)
    (chunks : list text) (metadatas : list (gmap string value))
    (ids : list text) (b : bool) (id : text) :
  add_documents c chunks metadatas ids = Ret (b, c') ->
  ~ In id ids ->
  c' !! id = c !! id.
Proof.
  rewrite add_documents_run. cbv zeta.
  set (valid := valid_data chunks (map embedding_of chunks) metadatas ids).
  intros Hrun Hnot.
  destruct (truthy valid); [| now injection Hrun as _ <-].
  destruct (decide (NoDup _)); [| now injection Hrun as _ <-].
  destruct (store_raises c _); injection Hrun as _ <-; [reflexivity |].
  unfold add_new. apply add_new_other. intros Hin.
  apply zip_map_fst in Hin. apply in_map_iff in Hin as (r & <- & Hr).
  apply Hnot. exact (valid_data_ids _ _ _ _ r Hr).
Qed.

Lemma add_documents_frame_witness :
  (<[lit "a_2" := mk_entry (lit "beta") [4] (meta_of "a.pdf" 2)]>
     small_collection : gmap text entry) !! lit "b_0"
  = small_collection !! lit "b_0".
Proof.
  apply (@add_documents_frame picky_services small_collection _
           [lit "beta"] [meta_of "a.pdf" 2] [lit "a_2"] true (lit "b_0")).
  - reflexivity.
  - intros [Heq | []]. discriminate Heq.
Defined.

(** X14. Round trip of [add_documents]: with as many metadatas and ids
    as chunks, after a call that returns [True] the id of every chunk
    whose embedding is not empty leads to a record: the record made of
    that chunk, its embedding and its metadata when nothing was stored
    under the id before, and otherwise the record that was stored there
    before, which the call does not replace. *)
Theorem add_documents_lookup `{Services} (c c' : gmap text entry)
    (chunks : list text) (metadatas : list (gmap string value))
    (ids : list text) (k : nat) :
  length metadatas = length chunks -> length ids = length chunks ->
  add_documents c chunks metadatas ids = Ret (true, c') ->
  (k < length chunks)%nat ->
  get_embedding (nth k chunks []) <> Ret [] ->
  c' !! nth k ids [] =
  Some (match c !! nth k ids [] with
        | Some old => old
        | None => mk_entry (nth k chunks []) (embedding_of (nth k chunks []))
                    (nth k metadatas ∅)
        end).
Proof.
  intros Hm Hi Hrun Hk Hemb.
  assert (Hin : In k (surviving chunks)) by (now apply surviving_spec).
  rewrite add_documents_positions in Hrun by assumption. cbv zeta in Hrun.
  destruct (truthy _); [| discriminate].
  destruct (decide (NoDup _)) as [Hnd |]; [| discriminate].
  destruct (store_raises c _); [discriminate |].
  injection Hrun as <-.
  destruct (add_new_positions c chunks metadatas ids _ Hnd)
    as (Hold & Hnew & _).
  destruct (c !! nth k ids []) as [old |] eqn:Hc.
  - exact (Hold _ _ Hc).
  - exact (Hnew k Hin Hc).
Qed.

Lemma add_documents_lookup_witness :
  (<[lit "a_2" := mk_entry (lit "beta") [4] (meta_of "a.pdf" 2)]>
     (<[lit "a_0" := mk_entry (lit "alpha") [5] (meta_of "a.pdf" 0)]> ∅)
   : gmap text entry) !! lit "a_2"
  = Some (mk_entry (lit "beta") [4] (meta_of "a.pdf" 2)).
Proof.
  refine (@add_documents_lookup picky_services ∅
            (<[lit "a_2" := mk_entry (lit "beta") [4] (meta_of "a.pdf" 2)]>
               (<[lit "a_0" := mk_entry (lit "alpha") [5] (meta_of "a.pdf" 0)]> ∅))
            [lit "alpha"; []; lit "beta"]
            [meta_of "a.pdf" 0; meta_of "a.pdf" 1; meta_of "a.pdf" 2]
            [lit "a_0"; lit "a_1"; lit "a_2"] 2 eq_refl eq_refl _ _ _).
  - vm_compute. reflexivity.
  - cbn. lia.
  - discriminate.
Defined.

(** X15. Deleting a document twice: provided the store answers the
    calls, after [delete_document] has run for a name, no record with that
    document name is left, and a second [delete_document] for the same name
    returns [False] and leaves the collection as it is. *)
Theorem delete_document_twice `{Services} (c c' : gmap text entry)
    (document_name : text) (b : bool) :
  (forall k : gmap text entry,
     store_raises k (CallGet "document_name" (VStr document_name)) = None) ->
  (forall (k : gmap text entry) (ids : list text),
     store_raises k (CallDelete ids) = None) ->
  delete_document c document_name = Ret (b, c') ->
  (forall id e, c' !! id = Some e ->
                ~ field_is "document_name" (VStr document_name) e)
  /\ delete_document c' document_name = Ret (false, c').
Proof.
  intros Hget Hdel Hrun.
  rewrite delete_document_run in Hrun by (intros; apply Hget || apply Hdel).
  assert (Hnone : forall id e, c' !! id = Some e ->
                    ~ field_is "document_name" (VStr document_name) e).
  { destruct (truthy _) eqn:Hids; injection Hrun as <- <-.
    - intros id e [_ Hnot]%map_lookup_filter_Some. exact Hnot.
    - apply matching_ids_empty in Hids. intros id e He Hf.
      apply Hids. now exists id, e. }
  split; [exact Hnone |].
  rewrite delete_document_run by (intros; apply Hget || apply Hdel).
  replace (truthy _) with false; [reflexivity |].
  symmetry. apply matching_ids_empty. intros (id & e & He & Hf).
  exact (Hnone id e He Hf).
Qed.

Lemma delete_document_twice_witness :
  @delete_document picky_services
    (<[lit "b_0" := mk_entry (lit "gamma") [5] (meta_of "b.pdf" 0)]> ∅)
    (lit "a.pdf")
  = Ret (false, <[lit "b_0" := mk_entry (lit "gamma") [5] (meta_of "b.pdf" 0)]> ∅).
Proof.
  apply (@delete_document_twice picky_services small_collection _
           (lit "a.pdf") true).
  - reflexivity.
  - reflexivity.
  - vm_compute. reflexivity.
Defined.

(** X16. [search] never raises, and a store that rejects the query is
    not told apart from a store without matches: the result is then the
    empty one. *)
Theorem search_never_raises `{Services} (c : gmap text entry) (query : text)
    (n_results : Z) (filter_dict : option (gmap string value)) :
  (exists r, search c query n_results filter_dict = Ret r)
  /\ (forall e,
        store_raises c (CallQuery (embedding_of query) n_results filter_dict)
          = Some e ->
        search c query n_results filter_dict = Ret empty_search).
Proof.
  unfold search. rewrite get_embedding_ret. exc_simpl.
  destruct (truthy (embedding_of query)); unfold collection_query, guarded.
  - destruct (store_raises c _) as [e |]; exc_simpl.
    + split; [now eexists | reflexivity].
    + split; [now eexists | discriminate].
  - split; [now eexists | reflexivity].
Qed.

(** ** Uploads: what is stored, and when nothing is *)

Section Paths.



End Paths.

Section UploadOutcomes.
Context `{Host}.

(** The ways in which [save_uploaded_file] ends. *)
Lemma save_uploaded_file_cases (st : state) (up : uploaded_file) :
  let file_path := data_path (u_name up) in
  match u_read up with
  | Raise e => save_uploaded_file st up = Ret ((None, Some (str_exn e)), st)
  | Ret file_bytes =>
      if is_duplicate (documents st) (get_file_hash file_bytes) then
        save_uploaded_file st up =
        Ret ((None, Some (lit "Duplicate file detected")), st)
      else
        match open_raises file_path with
        | Some e => save_uploaded_file st up = Ret ((None, Some (str_exn e)), st)
        | None =>
            match write_raises file_path file_bytes with
            | Some (e, n) =>
                save_uploaded_file st up =
                Ret ((None, Some (str_exn e)),
                     {| documents := documents st;
                        files := <[file_path := take n file_bytes]> (files st) |})
            | None =>
                save_uploaded_file st up =
                Ret ((Some {| d_name := u_name up; d_path := file_path;
                              d_hash := get_file_hash file_bytes;
                              d_size := len file_bytes;
                              d_uploaded_at := now_isoformat;
                              d_status := lit "uploaded";
                              d_type := u_type up |}, None),
                     {| documents := documents st;
                        files := <[file_path := file_bytes]> (files st) |})
            end
        end
  end.
Proof.
  intros file_path. unfold save_uploaded_file, write_file, upload_error.
  fold file_path.
  destruct (u_read up) as [e | file_bytes]; [reflexivity |].
  destruct (is_duplicate _ _); [reflexivity |].
  destruct (open_raises file_path); [reflexivity |].
  destruct (write_raises file_path file_bytes) as [[e n] |]; reflexivity.
Qed.

(** [save_uploaded_file] does not raise. *)
Lemma save_uploaded_file_total (st : state) (up : uploaded_file) :
  exists r st', save_uploaded_file st up = Ret (r, st').
Proof.
  pose proof (save_uploaded_file_cases st up) as Hcases. cbv zeta in Hcases.
  destruct (u_read up); [eexists _, _; exact Hcases |].
  destruct (is_duplicate _ _); [eexists _, _; exact Hcases |].
  destruct (open_raises _); [eexists _, _; exact Hcases |].
  destruct (write_raises _ _) as [[e n] |]; eexists _, _; exact Hcases.
Qed.

End UploadOutcomes.




(** ** The upload loop keeps names and digests distinct *)

Section UploadLoop.
Context `{Host}.

Lemma name_tracked_spec (name : text) (docs : list tracked) :
  name_tracked name docs = true <->
  In name (map (fun doc => d_name (t_info doc)) docs).
Proof.
  induction docs as [| doc docs IH]; cbn [name_tracked map In].
  - split; [discriminate | tauto].
  - destruct (decide (d_name (t_info doc) = name)) as [Heq | Hne].
    + split; [now left | reflexivity].
    + rewrite IH. split; [now right | intros [Heq | Hin]; tauto].
Qed.

(** A successful [save_uploaded_file] returns the name of the upload and
    a digest that no tracked document has. *)
Lemma save_uploaded_file_new (st st' : state) (up : uploaded_file)
    (doc : doc_info) (err : option text) :
  save_uploaded_file st up = Ret ((Some doc, err), st') ->
  d_name doc = u_name up
  /\ ~ In (d_hash doc) (map d_hash (documents st))
  /\ documents st' = documents st.
Proof.
  pose proof (save_uploaded_file_cases st up) as Hcases. cbv zeta in Hcases.
  destruct (u_read up) as [e | file_bytes];
    [rewrite Hcases; discriminate |].
  destruct (is_duplicate _ _) eqn:Hdup; [rewrite Hcases; discriminate |].
  destruct (open_raises _); [rewrite Hcases; discriminate |].
  destruct (write_raises _ _) as [[e n] |]; rewrite Hcases; [discriminate |].
  intros [= <- _ <-]. cbn [d_name d_hash documents]. split; [reflexivity |].
  split; [| reflexivity]. intros (d & Hd & Hin)%in_map_iff.
  assert (is_duplicate (documents st) (get_file_hash file_bytes) = true) as Hyes
    by (apply is_duplicate_spec; now exists d).
  congruence.
Qed.

Lemma handle_upload_distinct (s s' : session) (up : uploaded_file) :
  handle_upload s up = Ret s' ->
  distinct_documents (ss_documents s) ->
  distinct_documents (ss_documents s')
  /\ (exists added, ss_documents s' = ss_documents s ++ added)
  /\ ss_collection s' = ss_collection s.
Proof.
  unfold handle_upload. intros Hrun [Hnames Hhashes].
  destruct (name_tracked (u_name up) (ss_documents s)) eqn:Hname.
  - injection Hrun as <-. split; [now split |].
    split; [exists []; now rewrite app_nil_r | reflexivity].
  - destruct (save_uploaded_file (app_state s) up) as [e | [[d err] st']]
      eqn:Hsave; exc_simpl; [discriminate |].
    cbn [fst snd] in Hrun. destruct d as [doc |]; injection Hrun as <-;
      cbn [ss_documents ss_collection].
    + apply save_uploaded_file_new in Hsave as (Hn & Hh & _).
      cbn [app_state documents] in Hh. rewrite map_map in Hh.
      split; [| split; [now eexists | reflexivity]].
      unfold distinct_documents. rewrite !map_app. cbn [map fresh t_info].
      split; (apply List.NoDup_app;
        [assumption | constructor; [intros [] | constructor] |]).
      * intros a Ha [<- | []]. rewrite Hn in Ha.
        apply name_tracked_spec in Ha. congruence.
      * intros a Ha [<- | []]. contradiction.
    + split; [now split |].
      split; [exists []; now rewrite app_nil_r | reflexivity].
Qed.

End UploadLoop.

(** X19. The upload loop never raises and keeps the tracked documents
    distinct: if names and digests are pairwise distinct before a batch of
    uploads, they are so afterwards. The loop only appends documents, and
    it does not touch the collection. *)
Theorem handle_uploads_distinct `{Host} (s : session) (ups : list uploaded_file) :
  exists s',
    handle_uploads s ups = Ret s'
    /\ (distinct_documents (ss_documents s) ->
        distinct_documents (ss_documents s'))
    /\ (exists added, ss_documents s' = ss_documents s ++ added)
    /\ ss_collection s' = ss_collection s.
Proof.
  revert s. induction ups as [| up ups IH]; intros s.
  - exists s. split; [reflexivity |]. split; [tauto |].
    split; [exists []; now rewrite app_nil_r | reflexivity].
  - cbn [handle_uploads].
    assert (exists s1, handle_upload s up = Ret s1) as [s1 Hs1].
    { unfold handle_upload. destruct (name_tracked _ _); [now eexists |].
      destruct (save_uploaded_file_total (app_state s) up)
        as ([d err] & st' & ->); exc_simpl; cbn [fst snd].
      destruct d; now eexists. }
    rewrite Hs1. exc_simpl.
    destruct (IH s1) as (s' & Hrun & Hinv & [added Hadd] & Hcol).
    exists s'. split; [exact Hrun |].
    assert (Hstep : (exists added1, ss_documents s1 = ss_documents s ++ added1)
                    /\ ss_collection s1 = ss_collection s
                    /\ (distinct_documents (ss_documents s) ->
                        distinct_documents (ss_documents s1))).
    { unfold handle_upload in Hs1.
      destruct (name_tracked (u_name up) (ss_documents s)) eqn:Hname.
      - injection Hs1 as <-.
        split; [exists []; now rewrite app_nil_r | split; [reflexivity | tauto]].
      - split; [| split].
        + destruct (save_uploaded_file (app_state s) up) as [e | [[d err] st']];
            exc_simpl; [discriminate |].
          cbn [fst snd] in Hs1. destruct d; injection Hs1 as <-;
            cbn [ss_documents]; [now eexists |].
          exists []. now rewrite app_nil_r.
        + destruct (save_uploaded_file (app_state s) up) as [e | [[d err] st']];
            exc_simpl; [discriminate |].
          cbn [fst snd] in Hs1. destruct d; now injection Hs1 as <-.
        + intros Hd.
          assert (handle_upload s up = Ret s1) as Hup
            by (unfold handle_upload; now rewrite Hname).
          exact (proj1 (handle_upload_distinct s s1 up Hup Hd)). }
    destruct Hstep as ([added1 Hadd1] & Hcol1 & Hinv1).
    split; [tauto |]. split; [| congruence].
    exists (added1 ++ added). now rewrite Hadd, Hadd1, app_assoc.
Qed.

(** ** Processing a document *)

Section ProcessDocument.
Context `{Libraries} `{Services} `{Machine}.

(** [add_documents] does not raise, and a call that returns [False]
    leaves the collection as it was. *)
Lemma add_documents_total (c : gmap text entry) (chunks : list text)
    (metadatas : list (gmap string value)) (ids : list text) :
  exists b c', add_documents c chunks metadatas ids = Ret (b, c')
               /\ (b = false -> c' = c).
Proof.
  rewrite add_documents_run. cbv zeta.
  destruct (truthy _); [| now eexists _, _].
  destruct (decide (NoDup _)); [| now eexists _, _].
  destruct (store_raises c _); eexists _, _; split; try reflexivity;
    discriminate.
Qed.

(** The only exception of the chunker is [MemoryError], and it is raised
    only when the memory is exhausted. *)
Lemma chunk_loop_run_raises (fuel : nat) (t : text) (size overlap start : Z)
    (chunks : list text) (e : exn) :
  chunk_loop_run fuel t size overlap start chunks = Some (Raise e) ->
  e = memory_error /\ exists l, out_of_memory l = true.
Proof.
  revert start chunks. induction fuel as [| fuel IH]; intros start chunks;
    [discriminate |].
  cbn [chunk_loop_run]. destruct (start <? len t); [| discriminate].
  destruct (strip _) as [| x chunk]; [apply IH |].
  destruct (out_of_memory chunks) eqn:Hfull; [| apply IH].
  intros [= <-]. split; [reflexivity | now exists chunks].
Qed.

Lemma chunk_text_run_raises (fuel : nat) (t : text) (size overlap : Z)
    (e : exn) :
  chunk_text_run fuel t size overlap = Some (Raise e) ->
  e = memory_error /\ exists l, out_of_memory l = true.
Proof.
  destruct t as [| x t]; [discriminate |]. apply chunk_loop_run_raises.
Qed.

(** On a machine whose memory is never exhausted, the run of the chunker
    is the run of [chunk_text]. *)
Lemma chunk_loop_run_unbounded (fuel : nat) (t : text) (size overlap start : Z)
    (chunks : list text) :
  (forall l, out_of_memory l = false) ->
  chunk_loop_run fuel t size overlap start chunks =
  option_map Ret (chunk_loop fuel t size overlap start chunks).
Proof.
  intros Hroom. revert start chunks.
  induction fuel as [| fuel IH]; intros start chunks; [reflexivity |].
  cbn [chunk_loop_run chunk_loop]. destruct (start <? len t); [| reflexivity].
  destruct (strip _) as [| x chunk]; cbn [append_chunk]; [apply IH |].
  rewrite Hroom. apply IH.
Qed.

Lemma chunk_text_run_unbounded (fuel : nat) (t : text) (size overlap : Z) :
  (forall l, out_of_memory l = false) ->
  chunk_text_run fuel t size overlap =
  option_map Ret (chunk_text fuel t size overlap).
Proof.
  intros Hroom. destruct t as [| x t]; [reflexivity |].
  now apply chunk_loop_run_unbounded.
Qed.

(** On the text [boundary_at_overlap], whose window never advances, every
    iteration appends the same chunk. *)
Lemma stalled_step (fuel : nat) (chunks : list text) :
  chunk_loop_run (S fuel) boundary_at_overlap 1000 200 0 chunks =
  if out_of_memory chunks then Some (Raise memory_error)
  else chunk_loop_run fuel boundary_at_overlap 1000 200 0
         (chunks ++ [strip (slice boundary_at_overlap 0 200)]).
Proof.
  cbn [chunk_loop_run]. rewrite boundary_at_overlap_window.
  change (0 <? len boundary_at_overlap) with true. cbv iota.
  change (200 - 200) with 0.
  destruct (strip (slice boundary_at_overlap 0 200)) as [| x chunk] eqn:Hc;
    [vm_compute in Hc; discriminate Hc | reflexivity].
Qed.

(** So on a machine whose memory is finite the chunker does not hang on
    that text: it ends with [MemoryError]. *)
Lemma stalled_chunker_raises (n : nat) :
  (forall l, (n <= length l)%nat -> out_of_memory l = true) ->
  chunk_text_run (S n) boundary_at_overlap 1000 200 = Some (Raise memory_error).
Proof.
  intros Hfull.
  assert (Hloop : forall k chunks, (n <= length chunks + k)%nat ->
            chunk_loop_run (S k) boundary_at_overlap 1000 200 0 chunks
            = Some (Raise memory_error)).
  { induction k as [| k IH]; intros chunks Hlen; rewrite stalled_step.
    - rewrite Hfull by lia. reflexivity.
    - destruct (out_of_memory chunks); [reflexivity |].
      apply IH. rewrite length_app. cbn [length]. lia. }
  change (chunk_text_run (S n) boundary_at_overlap 1000 200)
    with (chunk_loop_run (S n) boundary_at_overlap 1000 200 0 []).
  apply Hloop. cbn [length]. lia.
Qed.

(** The identity of a document: every key but ['status'], ['error'] and
    ['num_chunks']. *)
Lemma with_status_identity (s : text) (doc : tracked) :
  d_name (t_info (with_status s doc)) = d_name (t_info doc)
  /\ d_path (t_info (with_status s doc)) = d_path (t_info doc)
  /\ d_hash (t_info (with_status s doc)) = d_hash (t_info doc)
  /\ d_size (t_info (with_status s doc)) = d_size (t_info doc)
  /\ d_uploaded_at (t_info (with_status s doc)) = d_uploaded_at (t_info doc)
  /\ d_type (t_info (with_status s doc)) = d_type (t_info doc).
Proof. repeat split. Qed.

(** The four ways in which [process_document] ends. *)
Lemma process_document_cases (fuel : nat) (dp : DocumentProcessor)
    (c c' : gmap text entry) (doc doc' : tracked) (b : bool) :
  process_document fuel dp c doc = Some (b, doc', c') ->
  (b = true
   /\ (exists n, 0 < n
         /\ doc' = with_num_chunks n
                     (with_status (lit "indexed")
                        (with_status (lit "processing") doc))))
  \/ (b = false /\ c' = c
      /\ exists msg,
           doc' = with_error msg
                    (with_status (lit "failed_parsing")
                       (with_status (lit "processing") doc)))
  \/ (b = false /\ c' = c
      /\ doc' = with_error (lit "Failed to add to vector store")
                  (with_status (lit "failed_indexing")
                     (with_status (lit "processing") doc)))
  \/ (b = false /\ c' = c
      /\ doc' = with_error []
                  (with_status (lit "error")
                     (with_status (lit "processing") doc))
      /\ exists l, out_of_memory l = true).
Proof.
  unfold process_document.
  set (doc1 := with_status (lit "processing") doc).
  destruct (process_file_status dp (d_path (t_info doc1)) (d_type (t_info doc1)))
    as (r & -> & Hst).
  assert (Hsome : exists status, r_status r = Some status)
    by (destruct Hst as [[-> _] | [-> | ->]]; now eexists).
  destruct Hsome as [status ->].
  destruct (decide (status <> lit "success")).
  - intros [= <- <- <-]. right. left. split; [reflexivity |].
    split; [reflexivity |]. now eexists.
  - destruct (chunk_text_run fuel (r_text r) 1000 200) as [[e | chunks] |]
      eqn:Hchunks; [| | discriminate].
    + apply chunk_text_run_raises in Hchunks as [-> Hfull].
      intros [= <- <- <-]. right. right. right. now repeat split.
    + destruct chunks as [| chunk chunks]; cbn [truthy].
      * intros [= <- <- <-]. right. left. split; [reflexivity |].
        split; [reflexivity |]. now eexists.
      * destruct (index_chunks (t_info doc1) (chunk :: chunks) 0 [] [])
          as [metadatas ids].
        destruct (add_documents_total c (chunk :: chunks) metadatas ids)
          as (ok & c1 & -> & Hc1).
        destruct ok.
        -- intros [= <- <- <-]. left. split; [reflexivity |].
           exists (len (chunk :: chunks)). split; [| reflexivity].
           unfold len. cbn [length]. lia.
        -- intros [= <- <- <-]. right. right. left.
           rewrite Hc1 by reflexivity. repeat split.
Qed.

End ProcessDocument.

(** X20. Whenever [process_document] ends, it returns [True] exactly when
    it leaves the document with status ['indexed']; otherwise the status
    is ['failed_parsing'], ['failed_indexing'] or ['error'], an ['error']
    message is set and the collection is as before. Status ['error'] is
    left only when the chunker has raised [MemoryError] because the memory
    was exhausted; the message is then the empty message of
    [MemoryError]. A call that ends never leaves the status ['processing']
    behind, the name, path, digest, size, upload time and type are never
    changed, and a successful run sets a positive ['num_chunks'] and keeps
    whatever ['error'] message an earlier run left. *)
Theorem process_document_outcomes `{Libraries} `{Services} `{Machine}
    (fuel : nat) (dp : DocumentProcessor) (c c' : gmap text entry)
    (doc doc' : tracked) (b : bool) :
  process_document fuel dp c doc = Some (b, doc', c') ->
  (b = true
   /\ d_status (t_info doc') = lit "indexed"
   /\ t_error doc' = t_error doc
   /\ (exists n, 0 < n /\ t_num_chunks doc' = Some n)
   \/ b = false
      /\ (d_status (t_info doc') = lit "failed_parsing"
          \/ d_status (t_info doc') = lit "failed_indexing"
          \/ d_status (t_info doc') = lit "error"
             /\ t_error doc' = Some []
             /\ exists chunks, out_of_memory chunks = true)
      /\ (exists msg, t_error doc' = Some msg)
      /\ t_num_chunks doc' = t_num_chunks doc
      /\ c' = c)
  /\ d_name (t_info doc') = d_name (t_info doc)
  /\ d_path (t_info doc') = d_path (t_info doc)
  /\ d_hash (t_info doc') = d_hash (t_info doc)
  /\ d_size (t_info doc') = d_size (t_info doc)
  /\ d_uploaded_at (t_info doc') = d_uploaded_at (t_info doc)
  /\ d_type (t_info doc') = d_type (t_info doc).
Proof.
  intros Hrun.
  destruct (process_document_cases fuel dp c c' doc doc' b Hrun)
    as [(-> & n & Hn & ->) | [(-> & -> & msg & ->)
         | [(-> & -> & ->) | (-> & -> & -> & Hfull)]]].
  - split; [| repeat split]. left. repeat split. now exists n.
  - split; [| repeat split]. right. repeat split; [now left | now eexists].
  - split; [| repeat split]. right.
    repeat split; [right; now left | now eexists].
  - split; [| repeat split]. right.
    split; [reflexivity |]. split; [right; right; now repeat split |].
    split; [now eexists | now split].
Qed.

(** Witness of [process_document_outcomes]: the text of [stalled.pdf]
    stalls the chunker, whose second chunk does not fit into the memory of
    the machine; the document is left with status ['error'] and an empty
    message. *)
Lemma process_document_outcomes_witness :
  exists doc' c',
    @process_document stalling_libraries picky_services tiny_machine 5
      without_ocr ∅ stalled_doc
    = Some (false, doc', c')
    /\ d_status (t_info doc') = lit "error"
    /\ t_error doc' = Some []
    /\ d_name (t_info doc') = lit "stalled.pdf".
Proof.
  destruct (@process_document stalling_libraries picky_services tiny_machine 5
              without_ocr ∅ stalled_doc)
    as [[[b doc'] c'] |] eqn:Hrun; [| vm_compute in Hrun; discriminate Hrun].
  assert (Hb : b = false) by (vm_compute in Hrun; now injection Hrun).
  assert (Hst : d_status (t_info doc') = lit "error")
    by (vm_compute in Hrun; injection Hrun as _ <- _; reflexivity).
  subst b. exists doc', c'. split; [reflexivity |].
  destruct (@process_document_outcomes stalling_libraries picky_services
              tiny_machine _ _ _ _ _ _ _ Hrun) as (Hcase & Hname & _).
  destruct Hcase as [(Htrue & _) | (_ & Hstatus & _)];
    [discriminate Htrue |].
  split; [exact Hst |]. split; [| exact Hname].
  destruct Hstatus as [Hfp | [Hfi | (_ & Herr & _)]];
    [rewrite Hst in Hfp; apply (f_equal (@length char)) in Hfp;
       discriminate Hfp
    | rewrite Hst in Hfi; apply (f_equal (@length char)) in Hfi;
       discriminate Hfi
    | exact Herr].
Defined.

Section ChunkIds.

Lemma lit_inj (s1 s2 : string) : lit s1 = lit s2 -> s1 = s2.
Proof.
  revert s2. induction s1 as [| a s1 IH]; intros [| b s2]; cbn;
    try discriminate; [reflexivity |].
  intros [= Hab Hs]. f_equal; [| now apply IH].
  rewrite <- (ascii_N_embedding a), <- (ascii_N_embedding b). now rewrite Hab.
Qed.

(** Ids of one digest differ as soon as the indices differ. *)
Lemma chunk_id_inj (file_hash : text) (i j : Z) :
  chunk_id file_hash i = chunk_id file_hash j -> i = j.
Proof.
  unfold chunk_id. intros Heq. apply app_inv_head, app_inv_head in Heq.
  apply lit_inj in Heq. exact (pretty_Z_inj _ _ Heq).
Qed.

Lemma page_range_In (count : nat) (first k : Z) :
  In k (page_range count first) <-> first <= k < first + Z.of_nat count.
Proof.
  revert first. induction count as [| count IH]; intros first;
    cbn [page_range In]; [lia |]. rewrite IH. lia.
Qed.

Lemma page_range_NoDup (count : nat) (first : Z) :
  List.NoDup (page_range count first).
Proof.
  revert first. induction count as [| count IH]; intros first;
    cbn [page_range]; constructor; [| apply IH].
  rewrite page_range_In. lia.
Qed.

Lemma page_range_nth (count k : nat) (first d : Z) :
  (k < count)%nat -> nth k (page_range count first) d = first + Z.of_nat k.
Proof.
  revert k first. induction count as [| count IH]; intros k first Hk; [lia |].
  destruct k as [| k]; cbn [page_range nth]; [lia |].
  rewrite IH by lia. lia.
Qed.

(** The loop of [process_document] numbers the chunks from [idx] on. *)
Lemma index_chunks_spec (info : doc_info) (chunks : list text) (idx : Z)
    (metadatas : list (gmap string value)) (ids : list text) :
  index_chunks info chunks idx metadatas ids =
  (metadatas ++ map (chunk_metadata info) (page_range (length chunks) idx),
   ids ++ map (chunk_id (d_hash info)) (page_range (length chunks) idx)).
Proof.
  revert idx metadatas ids.
  induction chunks as [| chunk chunks IH]; intros idx metadatas ids.
  - cbn. now rewrite !app_nil_r.
  - cbn [index_chunks length page_range map]. rewrite IH.
    now rewrite <- !app_assoc.
Qed.

End ChunkIds.

(** X21. The ids and metadatas that [process_document] builds: one per
    chunk; chunk [k] gets the id [<digest>_<k>] and a metadata dictionary
    with the document name, [chunk_id = k] and [page = k // 3 + 1]; the ids
    of one document are pairwise distinct; and two ids built from digests
    of equal length (as hex digests are) are equal only for the same digest
    and the same index. *)
Theorem chunk_ids_unique (info : doc_info) (chunks : list text) :
  let indexed := index_chunks info chunks 0 [] [] in
  length (fst indexed) = length chunks
  /\ length (snd indexed) = length chunks
  /\ List.NoDup (snd indexed)
  /\ (forall k : nat, (k < length chunks)%nat ->
        nth k (snd indexed) [] =
          d_hash info ++ lit "_" ++ lit (pretty (Z.of_nat k))
        /\ nth k (fst indexed) ∅ !! "document_name" = Some (VStr (d_name info))
        /\ nth k (fst indexed) ∅ !! "chunk_id" = Some (VInt (Z.of_nat k))
        /\ nth k (fst indexed) ∅ !! "page" = Some (VInt (Z.of_nat k / 3 + 1)))
  /\ (forall (h1 h2 : text) (i j : Z),
        length h1 = length h2 -> chunk_id h1 i = chunk_id h2 j ->
        h1 = h2 /\ i = j).
Proof.
  intros indexed. unfold indexed. rewrite index_chunks_spec.
  cbn [fst snd app]. rewrite !length_map, page_range_length.
  split; [reflexivity |]. split; [reflexivity |]. split; [| split].
  - apply Finite.Injective_map_NoDup_in; [| apply page_range_NoDup].
    intros x y _ _. apply chunk_id_inj.
  - intros k Hk.
    rewrite (nth_indep _ [] (chunk_id (d_hash info) 0))
      by (now rewrite length_map, page_range_length).
    rewrite (nth_indep _ ∅ (chunk_metadata info 0))
      by (now rewrite length_map, page_range_length).
    rewrite !map_nth, !page_range_nth by assumption.
    rewrite Z.add_0_l. unfold chunk_metadata.
    split; [reflexivity |]. split; [apply lookup_insert_eq |]. split.
    + rewrite lookup_insert_ne by discriminate. apply lookup_insert_eq.
    + rewrite !lookup_insert_ne by discriminate. apply lookup_insert_eq.
  - intros h1 h2 i j Hlen Heq. unfold chunk_id in Heq.
    apply app_inj_1 in Heq as [-> Heq]; [| exact Hlen].
    split; [reflexivity |]. apply app_inv_head, lit_inj in Heq.
    exact (pretty_Z_inj _ _ Heq).
Qed.

(** ** "Process All" and "Delete" *)

Section ProcessAll.
Context `{Libraries} `{Services} `{Machine}.

Lemma to_process_spec (doc : tracked) :
  to_process doc = true <->
  d_status (t_info doc) = lit "uploaded"
  \/ d_status (t_info doc) = lit "failed_parsing"
  \/ d_status (t_info doc) = lit "failed_indexing".
Proof.
  unfold to_process. rewrite bool_decide_eq_true. cbn [In].
  split; [intros [? | [? | [? | []]]]; auto | intros [? | [? | ?]]; auto].
Qed.

Lemma process_all_related (fuel : nat) (dp : DocumentProcessor)
    (docs docs' : list tracked) (c c' : gmap text entry) :
  process_all fuel dp docs c = Some (docs', c') ->
  Forall2
    (fun doc doc' =>
       (to_process doc = false -> doc' = doc)
       /\ (to_process doc = true ->
           d_status (t_info doc') = lit "indexed"
           \/ d_status (t_info doc') = lit "failed_parsing"
           \/ d_status (t_info doc') = lit "failed_indexing"
           \/ d_status (t_info doc') = lit "error")
       /\ d_name (t_info doc') = d_name (t_info doc)
       /\ d_hash (t_info doc') = d_hash (t_info doc))
    docs docs'.
Proof.
  revert docs' c c'. induction docs as [| doc docs IH]; intros docs' c c'.
  - intros [= <- <-]. constructor.
  - cbn [process_all]. destruct (to_process doc) eqn:Hto.
    + destruct (process_document fuel dp c doc) as [[[b doc1] c1] |] eqn:Hdoc;
        [| discriminate].
      destruct (process_all fuel dp docs c1) as [[rest' c2] |] eqn:Hrest;
        [| discriminate].
      intros [= <- <-]. constructor; [| exact (IH _ _ _ Hrest)].
      split; [intros Hno; congruence |].
      destruct (process_document_cases fuel dp c c1 doc doc1 b Hdoc)
        as [(_ & n & _ & ->) | [(_ & _ & msg & ->)
             | [(_ & _ & ->) | (_ & _ & -> & _)]]];
        (split; [intros _; cbn; tauto | split; reflexivity]).
    + destruct (process_all fuel dp docs c) as [[rest' c2] |] eqn:Hrest;
        [| discriminate].
      intros [= <- <-]. constructor; [| exact (IH _ _ _ Hrest)].
      split; [reflexivity |].
      split; [intros Hyes; congruence | split; reflexivity].
Qed.

End ProcessAll.

(** X22. Whenever the "Process All" loop ends, it has kept the number and
    order of the documents, their names and digests; a document whose
    status was not ['uploaded'], ['failed_parsing'] or ['failed_indexing']
    (so also one in status ['error'], which is never retried) is exactly
    as before; every other document ends in status ['indexed'],
    ['failed_parsing'], ['failed_indexing'] or ['error']; so no document
    is left in status ['uploaded']. *)
Theorem process_all_statuses `{Libraries} `{Services} `{Machine} (fuel : nat)
    (dp : DocumentProcessor) (docs docs' : list tracked)
    (c c' : gmap text entry) :
  process_all fuel dp docs c = Some (docs', c') ->
  Forall2
    (fun doc doc' =>
       (to_process doc = false -> doc' = doc)
       /\ (to_process doc = true ->
           d_status (t_info doc') = lit "indexed"
           \/ d_status (t_info doc') = lit "failed_parsing"
           \/ d_status (t_info doc') = lit "failed_indexing"
           \/ d_status (t_info doc') = lit "error")
       /\ d_name (t_info doc') = d_name (t_info doc)
       /\ d_hash (t_info doc') = d_hash (t_info doc))
    docs docs'
  /\ Forall (fun doc' => d_status (t_info doc') <> lit "uploaded") docs'.
Proof.
  intros Hrun. pose proof (process_all_related _ _ _ _ _ _ Hrun) as Hrel.
  split; [exact Hrel |]. clear Hrun.
  induction Hrel as [| doc doc' docs docs' (Hsame & Hdone & _) _ IH];
    constructor; [| exact IH].
  destruct (to_process doc) eqn:Hto.
  - destruct (Hdone eq_refl) as [-> | [-> | [-> | ->]]]; discriminate.
  - rewrite (Hsame eq_refl). intros Hup.
    assert (to_process doc = true) by (apply to_process_spec; now left).
    congruence.
Qed.

(** Witness of [process_all_statuses]: a document in status ['error'],
    which is skipped, a document whose text stalls the chunker, which ends
    in status ['error'], and a document that is indexed after it. *)
Lemma process_all_statuses_witness :
  exists docs' c',
    @process_all stalling_libraries picky_services tiny_machine 5 without_ocr
      [errored_doc; stalled_doc; short_doc] ∅ = Some (docs', c')
    /\ map (fun doc' => d_status (t_info doc')) docs'
       = [lit "error"; lit "error"; lit "indexed"]
    /\ Forall (fun doc' => d_status (t_info doc') <> lit "uploaded") docs'.
Proof.
  destruct (@process_all stalling_libraries picky_services tiny_machine 5
              without_ocr [errored_doc; stalled_doc; short_doc] ∅)
    as [[docs' c'] |] eqn:Hrun;
    [| vm_compute in Hrun; discriminate Hrun].
  exists docs', c'. split; [reflexivity |]. split.
  - vm_compute in Hrun. injection Hrun as <- _. reflexivity.
  - exact (proj2 (@process_all_statuses stalling_libraries picky_services
                    tiny_machine _ _ _ _ _ _ Hrun)).
Defined.



(** ** The RAG engine *)

Section Sources.

Lemma extract_loop_spec (metadata : list (gmap string value))
    (sources : list text) (seen : gset text) :
  (forall x, x ∈ seen <-> In x sources) ->
  List.NoDup sources ->
  List.NoDup (extract_loop metadata sources seen)
  /\ (forall x, In x (extract_loop metadata sources seen) <->
                In x sources \/ In x (map source_of metadata))
  /\ (exists added, extract_loop metadata sources seen = sources ++ added).
Proof.
  revert sources seen.
  induction metadata as [| meta rest IH]; intros sources seen Hseen Hnd.
  - cbn. split; [exact Hnd |]. split; [tauto |].
    exists []. now rewrite app_nil_r.
  - cbn [extract_loop map In].
    destruct (decide (source_of meta ∈ seen)) as [Hin | Hnot].
    + destruct (IH sources seen Hseen Hnd) as (Hn & Hm & Hp).
      split; [exact Hn |]. split; [| exact Hp].
      intros x. rewrite Hm. apply Hseen in Hin.
      split; [tauto |]. intros [? | [<- | ?]]; auto.
    + destruct (IH (sources ++ [source_of meta]) (seen ∪ {[source_of meta]}))
        as (Hn & Hm & [added Hp]).
      * intros x. rewrite elem_of_union, elem_of_singleton, in_app_iff, Hseen.
        cbn [In]. intuition.
      * apply List.NoDup_app; [exact Hnd | repeat constructor; intros [] |].
        intros a Ha [<- | []]. apply Hnot, Hseen, Ha.
      * split; [exact Hn |]. split.
        -- intros x. rewrite Hm, in_app_iff. cbn [In]. intuition.
        -- exists (source_of meta :: added). rewrite Hp.
           now rewrite <- app_assoc.
Qed.

End Sources.

(** X24. [_extract_sources] returns every source exactly once: the list
    has no duplicates, and a string is in it exactly when it is
    ["<document_name> - Page <page>"] for one of the metadata dictionaries
    (with ['Unknown'] for a missing key); the first source is that of the
    first dictionary. *)
Theorem extract_sources_unique (metadata : list (gmap string value)) :
  List.NoDup (extract_sources metadata)
  /\ (forall x, In x (extract_sources metadata) <->
                In x (map source_of metadata))
  /\ (forall meta rest, metadata = meta :: rest ->
        exists more, extract_sources metadata = source_of meta :: more).
Proof.
  unfold extract_sources.
  destruct (extract_loop_spec metadata [] ∅) as (Hn & Hm & _).
  { intros x. rewrite elem_of_empty. cbn. tauto. }
  { constructor. }
  split; [exact Hn |]. split; [intros x; rewrite Hm; cbn; tauto |].
  intros meta rest ->. cbn [extract_loop].
  destruct (decide (source_of meta ∈ (∅ : gset text))) as [Hin | _];
    [now apply elem_of_empty in Hin |].
  destruct (extract_loop_spec rest ([] ++ [source_of meta])
              (∅ ∪ {[source_of meta]})) as (_ & _ & [added ->]).
  { intros x. rewrite elem_of_union, elem_of_singleton, elem_of_empty.
    cbn. intuition. }
  { repeat constructor. intros []. }
  now exists added.
Qed.

Section Context_.

Lemma part_of_here (d rest : text) : part_of d (d ++ rest).
Proof. now exists [], rest. Qed.

Lemma part_of_app_r (d s x : text) : part_of d s -> part_of d (x ++ s).
Proof.
  intros (pre & post & ->). exists (x ++ pre), post. now rewrite <- app_assoc.
Qed.

Lemma part_of_app_l (d s y : text) : part_of d s -> part_of d (s ++ y).
Proof.
  intros (pre & post & ->). exists pre, (post ++ y). now rewrite <- !app_assoc.
Qed.

Lemma part_of_trans (d b s : text) : part_of d b -> part_of b s -> part_of d s.
Proof.
  intros Hd (pre & post & ->). now apply part_of_app_r, part_of_app_l.
Qed.

Lemma join_In (sep : text) (parts : list text) (p : text) :
  In p parts -> part_of p (join sep parts).
Proof.
  induction parts as [| q parts IH]; [intros [] |].
  intros [-> | Hin].
  - destruct parts as [| q' parts].
    + exists [], []. cbn. now rewrite app_nil_r.
    + apply part_of_here.
  - destruct parts as [| q' parts]; [destruct Hin |].
    change (join sep (q :: q' :: parts)) with (q ++ sep ++ join sep (q' :: parts)).
    now apply part_of_app_r, part_of_app_r, IH.
Qed.

Lemma context_parts_In (idx : Z) (pairs : list (text * gmap string value))
    (doc : text) (meta : gmap string value) :
  In (doc, meta) pairs ->
  exists k, In (context_block k doc meta) (context_parts idx pairs).
Proof.
  revert idx. induction pairs as [| p pairs IH]; intros idx; [intros [] |].
  intros [-> | Hin].
  - exists idx. now left.
  - destruct (IH (idx + 1) Hin) as [k Hk]. exists k. now right.
Qed.

(** A block holds the text of its document and the name of the document. *)
Lemma context_block_parts (idx : Z) (doc : text) (meta : gmap string value) :
  part_of doc (context_block idx doc meta)
  /\ part_of (meta_field meta "document_name") (context_block idx doc meta).
Proof.
  unfold context_block. split.
  - do 20 apply part_of_app_r. apply part_of_here.
  - do 10 apply part_of_app_r. apply part_of_here.
Qed.

End Context_.

(** X25. Every retrieved chunk that has a metadata dictionary appears
    verbatim in the context that [_build_context] builds, and so does the
    name of its document; without chunks, or without metadata, the context
    is the empty string. *)
Theorem build_context_contains (documents : list text)
    (metadata : list (gmap string value)) :
  (forall doc meta, In (doc, meta) (zip documents metadata) ->
     part_of doc (build_context documents metadata)
     /\ part_of (meta_field meta "document_name")
          (build_context documents metadata))
  /\ (documents = [] \/ metadata = [] -> build_context documents metadata = []).
Proof.
  split.
  - intros doc meta Hin. unfold build_context.
    destruct (context_parts_In 1 _ doc meta Hin) as [k Hk].
    pose proof (join_In [newline] _ _ Hk) as Hjoin.
    destruct (context_block_parts k doc meta) as [Hdoc Hname].
    split; eapply part_of_trans; eassumption.
  - intros [-> | ->]; unfold build_context; [reflexivity |].
    now destruct documents.
Qed.

(** ** Answers and summaries *)

Section Answers.
Context `{Services} `{Assistant}.

(** The request that [generate_response] sends to the chat model. *)
Lemma generate_response_cases (eng : RAGEngine) (q : text)
    (docs : list text) (metas : list (gmap string value)) (model : text) :
  generate_response eng q docs metas model =
  match chat_create
          {| rq_model := model; rq_system := system_prompt eng;
             rq_user := user_message (build_context docs metas) q;
             rq_temperature := (3, 10); rq_max_tokens := 1000 |} with
  | Ret content =>
      Ret {| a_answer := content; a_sources := extract_sources metas;
             a_model_used := Some model; a_success := true; a_error := None;
             a_needs_visualization := None; a_documents := None;
             a_metadatas := None |}
  | Raise e =>
      Ret {| a_answer := lit "Error generating response: " ++ str_exn e;
             a_sources := []; a_model_used := Some model;
             a_success := false; a_error := Some (str_exn e);
             a_needs_visualization := None; a_documents := None;
             a_metadatas := None |}
  end.
Proof.
  unfold generate_response. now destruct (chat_create _).
Qed.

(** [search] as a value: it never raises. *)
Lemma search_cases (c : gmap text entry) (q : text) (n : Z) :
  search c q n None =
  Ret (if truthy (embedding_of q) then
         match store_raises c (CallQuery (embedding_of q) n None) with
         | Some _ => empty_search
         | None =>
             let results := nearest c (embedding_of q) n None in
             {| s_documents := first_or_empty (q_documents results);
                s_metadatas := first_or_empty (q_metadatas results);
                s_distances := first_or_empty (q_distances results) |}
         end
       else empty_search).
Proof.
  unfold search. rewrite get_embedding_ret. exc_simpl.
  destruct (truthy (embedding_of q)); [| reflexivity].
  unfold collection_query, guarded.
  now destruct (store_raises c _).
Qed.

Lemma query_empty (eng : RAGEngine) (c : gmap text entry) (question : text)
    (n : Z) (model : text) (sr : search_result) :
  search c question n None = Ret sr -> s_documents sr = [] ->
  query eng c question n model = Ret no_documents_answer.
Proof.
  intros Hs Hd. unfold query. rewrite Hs. exc_simpl. now rewrite Hd.
Qed.

Lemma slice_firstn {A : Type} (l : list A) (n : nat) :
  slice l 0 (Z.of_nat n) = firstn n l.
Proof.
  unfold slice, clamp_index, len.
  destruct (Z.of_nat n <? 0) eqn:Hneg; [apply Z.ltb_lt in Hneg; lia |].
  cbn [Z.ltb Z.compare]. rewrite (Z.min_l 0) by lia.
  change (skipn (Z.to_nat 0) l) with l.
  rewrite Z.sub_0_r.
  destruct (Z.le_gt_cases (Z.of_nat n) (Z.of_nat (length l))) as [Hle | Hgt].
  - rewrite (Z.min_l (Z.of_nat n)) by lia. now rewrite Nat2Z.id.
  - rewrite (Z.min_r (Z.of_nat n)) by lia. rewrite Nat2Z.id.
    rewrite !firstn_all2 by lia. reflexivity.
Qed.

End Answers.

(** X26. [generate_response] never raises, and its dictionary always names
    the model. On success the answer is the content returned by the chat
    model, for the request built from the context and the question, and the
    sources are those of [_extract_sources]; on failure the sources are
    empty, ['error'] is the message of the exception and the answer is
    that message after ['Error generating response: ']. *)
Theorem generate_response_outcomes `{Services} `{Assistant}
    (eng : RAGEngine) (q : text) (docs : list text)
    (metas : list (gmap string value)) (model : text) :
  let req := {| rq_model := model; rq_system := system_prompt eng;
                rq_user := user_message (build_context docs metas) q;
                rq_temperature := (3, 10); rq_max_tokens := 1000 |} in
  exists a,
    generate_response eng q docs metas model = Ret a
    /\ a_model_used a = Some model
    /\ (a_success a = true ->
          chat_create req = Ret (a_answer a)
          /\ a_sources a = extract_sources metas /\ a_error a = None)
    /\ (a_success a = false ->
          exists e,
            chat_create req = Raise e
            /\ a_answer a = lit "Error generating response: " ++ str_exn e
            /\ a_sources a = [] /\ a_error a = Some (str_exn e)).
Proof.
  intros req. rewrite generate_response_cases. fold req.
  destruct (chat_create req) as [e | content]; eexists; split;
    try reflexivity; cbn [a_model_used a_success a_answer a_sources a_error].
  - split; [reflexivity |]. split; [discriminate |].
    intros _. exists e. now repeat split.
  - split; [reflexivity |]. split; [| discriminate].
    intros _. now repeat split.
Qed.

(** X27. When the embedding of the question fails, or the store rejects
    the nearest-neighbour query, [query] answers that no relevant
    documents were found, with ['success'] false and no ['error'] key, and
    it does so whatever the chat model would do: the model is not called. *)
Theorem query_retrieval_failure `{Services} `{Assistant} (eng : RAGEngine)
    (c : gmap text entry) (question : text) (n_results : Z) (model : text)
    (e : exn) :
  embeddings_create question = Raise e
  \/ store_raises c (CallQuery (embedding_of question) n_results None) = Some e ->
  query eng c question n_results model = Ret no_documents_answer.
Proof.
  intros Hfail. eapply query_empty; [apply search_cases |].
  destruct Hfail as [He | Hs].
  - unfold embedding_of. rewrite He. reflexivity.
  - rewrite Hs. now destruct (truthy _).
Qed.

Lemma query_retrieval_failure_witness :
  @query picky_services down_assistant demo_engine small_collection [] 5
    (lit "gpt-4o-mini") = Ret no_documents_answer.
Proof.
  apply (@query_retrieval_failure picky_services down_assistant demo_engine
           small_collection [] 5 (lit "gpt-4o-mini")
           (Exception (lit "empty input"))).
  left. reflexivity.
Defined.

(** X28. [query] never raises and never reaches its own handler: an
    ['error'] key in its dictionary is always the one of
    [generate_response]. A successful answer comes with the retrieved
    chunks, which are not empty, with their metadata, with the sources
    extracted from that metadata and with the name of the model. *)
Theorem query_outcomes `{Services} `{Assistant} (eng : RAGEngine)
    (c : gmap text entry) (question : text) (n_results : Z) (model : text) :
  exists a sr,
    query eng c question n_results model = Ret a
    /\ search c question n_results None = Ret sr
    /\ (a_success a = true ->
          s_documents sr <> []
          /\ a_documents a = Some (s_documents sr)
          /\ a_metadatas a = Some (s_metadatas sr)
          /\ a_sources a = extract_sources (s_metadatas sr)
          /\ a_model_used a = Some model)
    /\ (forall msg, a_error a = Some msg ->
          a_answer a = lit "Error generating response: " ++ msg
          /\ a_documents a = Some (s_documents sr)).
Proof.
  unfold query. rewrite search_cases.
  set (sr := if truthy (embedding_of question) then _ else _).
  exc_simpl. destruct (s_documents sr) as [| d ds] eqn:Hd; cbn [truthy].
  - exc_simpl. exists no_documents_answer, sr.
    split; [reflexivity |]. split; [reflexivity |].
    split; [discriminate |]. intros msg; discriminate.
  - rewrite generate_response_cases.
    destruct (chat_create _) as [e | content]; exc_simpl;
      eexists; exists sr; (split; [reflexivity |]); (split; [reflexivity |]);
      cbn [a_success a_error a_answer a_documents a_metadatas a_sources
           a_model_used].
    + split; [discriminate |]. intros msg [= <-]. now rewrite Hd.
    + split; [| intros msg; discriminate].
      intros _. rewrite Hd. now repeat split.
Qed.

(** X29. For a document without chunks in the collection,
    [summarize_document] returns ['No content found for <name>'] with
    ['success'] false, and it does so whatever the chat model would do:
    the model is not called. *)
Theorem summarize_document_unknown `{Services} `{Assistant}
    (eng : RAGEngine) (c : gmap text entry) (document_name : text) :
  matching c "document_name" (VStr document_name) = ∅ ->
  store_raises c (CallGet "document_name" (VStr document_name)) = None ->
  summarize_document eng c document_name =
  Ret {| sm_summary := lit "No content found for " ++ document_name;
         sm_document_name := None; sm_success := false; sm_error := None |}.
Proof.
  intros Hnone Hok. unfold summarize_document, collection_get_documents, guarded.
  rewrite Hok, Hnone, map_to_list_empty. reflexivity.
Qed.

Lemma summarize_document_unknown_witness :
  @summarize_document picky_services down_assistant demo_engine
    small_collection (lit "c.pdf") =
  Ret {| sm_summary := lit "No content found for " ++ lit "c.pdf";
         sm_document_name := None; sm_success := false; sm_error := None |}.
Proof.
  apply (@summarize_document_unknown picky_services down_assistant
           demo_engine small_collection (lit "c.pdf")).
  - vm_compute. reflexivity.
  - reflexivity.
Defined.

(** X30. [summarize_document] never raises. A successful summary is the
    content that the chat model returned for a prompt that holds, after its
    fixed instruction, the first 4000 characters of the chunks of the
    document joined by blank lines, and no more; the chunks are then not
    empty and the dictionary names the document. *)
Theorem summarize_document_outcomes `{Services} `{Assistant}
    (eng : RAGEngine) (c : gmap text entry) (document_name : text) :
  exists s,
    summarize_document eng c document_name = Ret s
    /\ (sm_success s = true ->
          sm_document_name s = Some document_name
          /\ exists documents rq,
               collection_get_documents c document_name = Ret documents
               /\ documents <> []
               /\ chat_create rq = Ret (sm_summary s)
               /\ rq_user rq =
                  lit "Please provide a concise summary of the following document in both Arabic and English:"
                  ++ [newline; newline]
                  ++ firstn 4000 (join [newline; newline] documents)).
Proof.
  unfold summarize_document.
  destruct (collection_get_documents c document_name) as [e | documents] eqn:Hget;
    exc_simpl.
  - eexists. split; [reflexivity |]. discriminate.
  - destruct documents as [| d ds]; cbn [truthy].
    + exc_simpl. eexists. split; [reflexivity |]. discriminate.
    + destruct (chat_create _) as [e | content] eqn:Hchat; exc_simpl.
      * eexists. split; [reflexivity |]. discriminate.
      * eexists. split; [reflexivity |]. intros _. split; [reflexivity |].
        eexists _, _. split; [reflexivity |]. split; [discriminate |].
        split; [exact Hchat |].
        cbn [rq_user]. unfold summary_message.
        change 4000 with (Z.of_nat 4000). now rewrite slice_firstn.
Qed.
